(** * QPMMockDataSource: the QPM periodic-box mock catalogue reader

    A shallow embedding of [contrib/QPMMock.py].  The plugin reads a plain
    text catalogue with [pandas.read_csv], converts the columns to single
    precision, optionally moves the particles to redshift space along one
    axis (wrapping periodically in the box captured at set-up) and optionally
    rescales box and positions by the two Alcock-Paczynski factors.

    numpy's arithmetic is modelled bit for bit on the IEEE 754 binary
    formats of [SpecFloat]: [float32] for the particle arrays, [float64] for
    the box size, the Python floats and [numpy.ones]. *)

From Stdlib Require Import ZArith QArith Qabs List String Bool Lia.
From Stdlib Require Import Floats.SpecFloat.
From stdpp Require Import base option list strings gmap.

Local Open Scope string_scope.

(** ** Floating point numbers *)

Module NumPy.

Inductive dtype := float32 | float64.

Definition prec (dt : dtype) : Z :=
  match dt with float32 => 24 | float64 => 53 end.

Definition emax (dt : dtype) : Z :=
  match dt with float32 => 128 | float64 => 1024 end.

(** A number of either format; the format is carried by the operation (a
    scalar) or by the array that holds it. *)
Definition num := spec_float.

Definition multiply (dt : dtype) : num -> num -> num := SFmul (prec dt) (emax dt).
Definition add (dt : dtype) : num -> num -> num := SFadd (prec dt) (emax dt).
Definition divide (dt : dtype) : num -> num -> num := SFdiv (prec dt) (emax dt).

Definition of_Z (dt : dtype) (n : Z) : num :=
  binary_normalize (prec dt) (emax dt) n 0 false.

(** Conversion to the format [dt], rounding to nearest even: what
    [astype] does to an element, and the cast of an operand or of a result
    of an in-place operator to the format of the loop or of the array. *)
Definition astype (dt : dtype) (a : num) : num :=
  match a with
  | S754_finite s m e => binary_round (prec dt) (emax dt) s m e
  | _ => a
  end.

(** C's [fmod]: the exact remainder of the truncated division, with the
    sign of the dividend. *)
Definition fmod (dt : dtype) (a b : num) : num :=
  match a, b with
  | S754_nan, _ | _, S754_nan => S754_nan
  | S754_infinity _, _ => S754_nan
  | _, S754_zero _ => S754_nan
  | S754_zero _, _ => a
  | S754_finite _ _ _, S754_infinity _ => a
  | S754_finite sa ma ea, S754_finite _ mb eb =>
      let ez := Z.min ea eb in
      let za := Zpos (fst (shl_align ma ea ez)) in
      let zb := Zpos (fst (shl_align mb eb ez)) in
      binary_normalize (prec dt) (emax dt) (cond_Zopp sa (Z.rem za zb)) ez sa
  end.

Definition zero : num := S754_zero false.
Definition is_nonzero (a : num) : bool := negb (SFeqb a zero).
Definition is_negative (a : num) : bool := SFltb a zero.

(** The sign bit, for [copysign]. *)
Definition signbit (a : num) : bool :=
  match a with
  | S754_zero s | S754_infinity s | S754_finite s _ _ => s
  | S754_nan => false
  end.

(** The floating point loop of [numpy.remainder] (the [%] operator), of
    numpy 1.x: with [res = fmod(in1, in2)], the result is [res] when [in2] is
    zero (a NaN); [res + in2] when [res] is non-zero and its sign differs
    from that of [in2]; [res] when it is non-zero and the signs agree; and
    [copysign(0, in2)] when [res] is zero. *)
Definition remainder (dt : dtype) (in1 in2 : num) : num :=
  let res := fmod dt in1 in2 in
  if SFeqb in2 zero then res
  else if is_nonzero res then
    if negb (Bool.eqb (is_negative in2) (is_negative res))
    then add dt res in2
    else res
  else S754_zero (signbit in2).

(** The bound below which [numpy.min_scalar_type] finds that a double fits
    single precision. *)
Definition float32_limit : num := of_Z float64 (34 * 10 ^ 37).

(** Value-based casting of numpy 1.x: in an operation of a single precision
    array with a double scalar, the scalar does not widen the array when it
    is not finite or lies strictly between [-3.4e38] and [3.4e38]. *)
Definition fits_float32 (q : num) : bool :=
  match q with
  | S754_infinity _ | S754_nan => true
  | _ => SFltb (SFopp float32_limit) q && SFltb q float32_limit
  end.

(** An element [a] of a single precision array under [arr op= q] for a
    double scalar [q]: the loop of single precision on the scalar cast down
    when the scalar fits, and otherwise the loop of double precision on the
    element cast up, with the result cast back into the array. *)
Definition inplace (op : dtype -> num -> num -> num) (a q : num) : num :=
  if fits_float32 q then op float32 a (astype float32 q)
  else astype float32 (op float64 (astype float64 a) q).

(** A Python float literal [n / 10^k], read as the nearest double. *)
Definition literal (n : Z) (k : nat) : num :=
  divide float64 (of_Z float64 n) (of_Z float64 (10 ^ Z.of_nat k)).

(** The rational value of a finite number. *)
Definition to_Q (a : num) : option Q :=
  match a with
  | S754_zero _ => Some 0%Q
  | S754_finite s m e =>
      let z := cond_Zopp s (Zpos m) in
      Some (match e with
            | Zneg p => Qmake z (2 ^ p)
            | _ => inject_Z (z * 2 ^ e)
            end)
  | _ => None
  end.

(** [near tol q a]: [a] is finite and within [tol] of the rational [q]. *)
Definition near (tol q : Q) (a : num) : bool :=
  match to_Q a with
  | Some v => Qle_bool (Qabs (v - q)) tol
  | None => false
  end.

(** A row of an [(N, 3)] array, also the shape of the box size. *)
Record vec3 := V3 { c0 : num; c1 : num; c2 : num }.

Definition getitem (v : vec3) (i : nat) : num :=
  match i with 0%nat => c0 v | 1%nat => c1 v | _ => c2 v end.

Definition setitem (v : vec3) (i : nat) (a : num) : vec3 :=
  match i with
  | 0%nat => V3 a (c1 v) (c2 v)
  | 1%nat => V3 (c0 v) a (c2 v)
  | _ => V3 (c0 v) (c1 v) a
  end.

Definition vmap (f : num -> num) (v : vec3) : vec3 :=
  V3 (f (c0 v)) (f (c1 v)) (f (c2 v)).

(** The arrays handed to the caller: their element type and their data. *)
Inductive ndarray :=
| Array1 (dt : dtype) (a : list num)
| Array2 (dt : dtype) (a : list vec3).

Definition dtype_of (a : ndarray) : dtype :=
  match a with Array1 dt _ | Array2 dt _ => dt end.

Definition len (a : ndarray) : nat :=
  match a with Array1 _ l => length l | Array2 _ l => length l end.

(** [numpy.ones(n)]: [n] doubles, the default element type. *)
Definition ones (n : nat) : ndarray := Array1 float64 (replicate n (of_Z float64 1)).

End NumPy.
Import NumPy.

Arguments multiply : simpl never.
Arguments add : simpl never.
Arguments astype : simpl never.
Arguments remainder : simpl never.
Arguments inplace : simpl never.
Arguments literal : simpl never.
Arguments of_Z : simpl never.

(** ** The object store

    The box sizes are numpy arrays, mutable and held by reference: the store
    maps a location to the three doubles of such an array.  The attributes of
    the data source and the arrays they point to make up the state that the
    two methods run in. *)

Abbreviation loc := nat (only parsing).

Inductive axis := x | y | z.

(** ['xyz'.index(rsd)] *)
Definition index (rsd : axis) : nat :=
  match rsd with x => 0 | y => 1 | z => 2 end.

(** Modelled from the spec: the parsed command line.  [register] declares
    the five arguments: [rsd] is absent or one of the three choices, [velf]
    is a Python float.  The box size parser that [register] names is not
    part of the sources at hand; by the specification it delivers [BoxSize]
    as a vector of three lengths (a scalar is broadcast to the three axes),
    here a numpy array of three doubles. *)
Record Namespace := {
  args_path : string;
  args_BoxSize : loc;
  args_scaled : bool;
  args_rsd : option axis;
  args_velf : num
}.

Record QPMMockDataSource := {
  path : string;
  BoxSize : loc;
  scaled : bool;
  rsd : option axis;
  velf : num;
  _BoxSize0 : loc
}.

Record world := {
  self : QPMMockDataSource;
  heap : list vec3
}.

(** The exceptions: of the failed import, of a missing key of a dictionary,
    and whatever [read_csv] raises. *)
Inductive exn :=
| ImportError (msg : string)
| KeyError (key : string)
| ReadError (msg : string).

(** Computations that read and write the state and may raise. *)
Definition M (A : Type) : Type := world -> (exn + A) * world.

Definition ret {A} (a : A) : M A := fun w => (inr a, w).

Definition bind {A B} (m : M A) (k : A -> M B) : M B :=
  fun w => match m w with
           | (inr a, w') => k a w'
           | (inl e, w') => (inl e, w')
           end.

Definition raise {A} (e : exn) : M A := fun w => (inl e, w).

#[global] Instance M_ret : MRet M := @ret.
#[global] Instance M_bind : MBind M := fun A B k m => bind m k.

(** [self.f] *)
Definition getattr {A} (f : QPMMockDataSource -> A) : M A :=
  fun w => (inr (f (self w)), w).

#[global] Instance vec3_inhabited : Inhabited vec3 :=
  populate (V3 S754_nan S754_nan S754_nan).

(** Reading the array at a location. *)
Definition load (l : loc) : M vec3 :=
  fun w => (inr (heap w !!! l), w).

(** Writing the array at a location, in place. *)
Definition store (l : loc) (v : vec3) : M unit :=
  fun w => (inr tt, {| self := self w; heap := <[l := v]> (heap w) |}).

(** A new array. *)
Definition alloc (v : vec3) : M loc :=
  fun w => (inr (length (heap w)), {| self := self w; heap := heap w ++ [v] |}).

(** [for i in l: body(i)] *)
Fixpoint for_ {A} (l : list A) (body : A -> M unit) : M unit :=
  match l with
  | [] => ret tt
  | i :: l' => body i;; for_ l' body
  end.

(** [[f(k) for k in l]] *)
Fixpoint comprehension {A B} (f : A -> M B) (l : list A) : M (list B) :=
  match l with
  | [] => ret []
  | k :: l' => b ← f k; bs ← comprehension f l'; ret (b :: bs)
  end.

(** ** The class attributes *)

Definition qpar : num := literal 9851209643 10.
Definition qperp : num := literal 9925056798 10.

(** ** initialize *)

(** Modelled from the spec: [DataSource.initialize], the base class method
    of [nbodykit.extensionpoints] that [initialize] calls first, is not part
    of the sources at hand.  It stores the parsed arguments as attributes of
    the instance; the box size is stored by reference, as any Python
    assignment does. *)
Definition DataSource_initialize (args : Namespace) : M unit :=
  fun w => (inr tt,
            {| self := {| path := args_path args;
                          BoxSize := args_BoxSize args;
                          scaled := args_scaled args;
                          rsd := args_rsd args;
                          velf := args_velf args;
                          _BoxSize0 := _BoxSize0 (self w) |};
               heap := heap w |}).

(** [self._BoxSize0 = v] *)
Definition set__BoxSize0 (l : loc) : M unit :=
  fun w => (inr tt,
            {| self := {| path := path (self w);
                          BoxSize := BoxSize (self w);
                          scaled := scaled (self w);
                          rsd := rsd (self w);
                          velf := velf (self w);
                          _BoxSize0 := l |};
               heap := heap w |}).

(** [self.BoxSize *= q] *)
Definition BoxSize_imul (q : num) : M unit :=
  b ← getattr BoxSize;
  v ← load b;
  store b (vmap (fun a => multiply float64 a q) v).

(** [self.BoxSize[i] *= q] *)
Definition BoxSize_item_imul (i : nat) (q : num) : M unit :=
  b ← getattr BoxSize;
  v ← load b;
  store b (setitem v i (multiply float64 (getitem v i) q)).

Definition initialize (args : Namespace) : M unit :=
  DataSource_initialize args;;
  b ← getattr BoxSize;
  v ← load b;
  b0 ← alloc v;
  set__BoxSize0 b0;;
  sc ← getattr scaled;
  if sc : bool then
    r ← getattr rsd;
    match r with
    | None => BoxSize_imul qperp
    | Some a =>
        let dir := index a in
        for_ [0; 1; 2]%nat (fun i =>
          if Nat.eqb i dir then BoxSize_item_imul i qpar
          else BoxSize_item_imul i qperp)
    end
  else ret tt.

(** ** readall *)

(** One record of the catalogue as [read_csv] delivers it, under the six
    column names. *)
Record record := {
  col_x : num; col_y : num; col_z : num;
  col_vx : num; col_vy : num; col_vz : num
}.

Definition DataFrame := list record.

(** The communicator; only its rank is looked at, to log one line once. *)
Record Comm := { rank : nat }.

(** [data[[a, b, c]].values.astype('f4')] *)
Definition values_f4 (a b c : record -> num) (data : DataFrame) : list vec3 :=
  map (fun r => V3 (astype float32 (a r)) (astype float32 (b r)) (astype float32 (c r))) data.

(** [arr *= q], for a single precision array and a Python float *)
Definition imul (arr : list vec3) (q : num) : list vec3 :=
  map (vmap (fun a => inplace multiply a q)) arr.

(** [arr[:, i] *= q] *)
Definition column_imul (arr : list vec3) (i : nat) (q : num) : list vec3 :=
  map (fun p => setitem p i (inplace multiply (getitem p i) q)) arr.

(** [arr[:, i] += other[:, i]] *)
Definition column_iadd (arr : list vec3) (i : nat) (other : list vec3) : list vec3 :=
  zip_with (fun p v => setitem p i (add float32 (getitem p i) (getitem v i))) arr other.

(** [arr[:, i] %= b], for a single precision array and a double scalar [b]. *)
Definition column_imod (arr : list vec3) (i : nat) (b : num) : list vec3 :=
  map (fun p => setitem p i (inplace remainder (getitem p i) b)) arr.

(** [P[key]] *)
Definition subscript (P : gmap string ndarray) (key : string) : M ndarray :=
  match P !! key with
  | Some a => ret a
  | None => raise (KeyError key)
  end.

Section WithPandas.

(** What [import pandas] finds: nothing, or the module, of which only
    [read_csv] is used, always with the same keyword arguments, so that it
    is a function of the path alone; it returns the records of the file or
    raises. *)
Variable pandas : option (string -> exn + DataFrame).

Definition import_pandas : M (string -> exn + DataFrame) :=
  match pandas with
  | Some pd => ret pd
  | None => raise (ImportError "pandas must be installed to use QPMMockDataSource")
  end.

Definition read_csv (pd : string -> exn + DataFrame) (p : string) : M DataFrame :=
  match pd p with
  | inr data => ret data
  | inl e => raise e
  end.

(** The generator yields once; [readall] returns the list of what it
    yields.  The calls to the logger are left out, and with them the only
    use of [comm]; [bunchsize] is not used by the method. *)
Definition readall (columns : list string) (comm : Comm) (bunchsize : nat)
  : M (list (list ndarray)) :=
  pd ← import_pandas;
  p ← getattr path;
  data ← read_csv pd p;
  let nobj := length data in
  let pos := values_f4 col_x col_y col_z data in
  let vel := values_f4 col_vx col_vy col_vz data in
  f ← getattr velf;
  let vel := imul vel f in
  r ← getattr rsd;
  pos ← match r with
        | Some a =>
            let dir := index a in
            let pos := column_iadd pos dir vel in
            b0 ← getattr _BoxSize0;
            L ← load b0;
            ret (column_imod pos dir (getitem L dir))
        | None => ret pos
        end;
  sc ← getattr scaled;
  let pos :=
    if sc : bool then
      match r with
      | None => imul pos qperp
      | Some a =>
          let dir := index a in
          fold_left (fun pos i =>
                       if Nat.eqb i dir then column_imul pos i qpar
                       else column_imul pos i qperp)
                    [0; 1; 2]%nat pos
      end
    else pos in
  let P : gmap string ndarray :=
    <["Weight" := ones (length pos)]>
      (<["Velocity" := Array2 float32 vel]>
         (<["Position" := Array2 float32 pos]> ∅)) in
  batch ← comprehension (subscript P) columns;
  ret [batch].

End WithPandas.

(** ** The operations of the component, in sequence *)

Inductive operation :=
| Configure (args : Namespace)
| Read (columns : list string) (comm : Comm) (bunchsize : nat).

Definition perform (pandas : option (string -> exn + DataFrame))
  (w : world) (op : operation) : world :=
  match op with
  | Configure args => snd (initialize args w)
  | Read columns comm bunchsize => snd (readall pandas columns comm bunchsize w)
  end.

Definition perform_all (pandas : option (string -> exn + DataFrame))
  (ops : list operation) (w : world) : world :=
  fold_left (perform pandas) ops w.

(** ** The transform as the specification words it

    Section 4.2 of the specification describes the transform particle by
    particle, in three steps.  These definitions follow its words; the
    lemmas below compare them with what [readall] computes. *)

Module Spec.

(** Step 1: every velocity value is multiplied by [velf]. *)
Definition scale_velocity (f : num) (v : vec3) : vec3 :=
  vmap (fun a => inplace multiply a f) v.

(** Step 2: along the selected axis the velocity is added to the position
    and the sum reduced modulo the original box length. *)
Definition redshift (r : option axis) (L0 : vec3) (p v : vec3) : vec3 :=
  match r with
  | None => p
  | Some a =>
      let d := index a in
      setitem p d
        (inplace remainder (add float32 (getitem p d) (getitem v d))
                 (getitem L0 d))
  end.

(** The factor an axis receives: [qpar] for the selected axis, [qperp] for
    the other two, [qperp] for all three when none is selected. *)
Definition ap_factor (r : option axis) (i : nat) : num :=
  match r with
  | Some a => if Nat.eqb i (index a) then qpar else qperp
  | None => qperp
  end.

(** Step 3: when [scaled], every position component is multiplied by the
    factor of its axis. *)
Definition rescale (sc : bool) (r : option axis) (p : vec3) : vec3 :=
  if sc then
    V3 (multiply float32 (c0 p) (astype float32 (ap_factor r 0)))
       (multiply float32 (c1 p) (astype float32 (ap_factor r 1)))
       (multiply float32 (c2 p) (astype float32 (ap_factor r 2)))
  else p.

Definition position (s : QPMMockDataSource) (L0 : vec3) (p v : vec3) : vec3 :=
  rescale (scaled s) (rsd s) (redshift (rsd s) L0 p (scale_velocity (velf s) v)).

(** The box size that set-up leaves: the original one, scaled axis by axis
    when [scaled]. *)
Definition working_size (sc : bool) (r : option axis) (b : vec3) : vec3 :=
  if sc then
    V3 (multiply float64 (c0 b) (ap_factor r 0))
       (multiply float64 (c1 b) (ap_factor r 1))
       (multiply float64 (c2 b) (ap_factor r 2))
  else b.

End Spec.

(** The reader's output: the raw batch that the transform works on. *)
Definition raw_position (data : DataFrame) : list vec3 :=
  values_f4 col_x col_y col_z data.

Definition raw_velocity (data : DataFrame) : list vec3 :=
  values_f4 col_vx col_vy col_vz data.

(** The three arrays of a read, as functions of the configuration, the
    captured box size and the records. *)
Definition Position_of (s : QPMMockDataSource) (L0 : vec3) (data : DataFrame) : ndarray :=
  Array2 float32
    (zip_with (Spec.position s L0) (raw_position data) (raw_velocity data)).

Definition Velocity_of (s : QPMMockDataSource) (data : DataFrame) : ndarray :=
  Array2 float32 (map (Spec.scale_velocity (velf s)) (raw_velocity data)).

Definition Weight_of (data : DataFrame) : ndarray :=
  Array1 float64 (replicate (length data) (of_Z float64 1)).

(** The dictionary [P] that [readall] builds. *)
Definition fields (s : QPMMockDataSource) (L0 : vec3) (data : DataFrame)
  : gmap string ndarray :=
  <["Weight" := Weight_of data]>
    (<["Velocity" := Velocity_of s data]>
       (<["Position" := Position_of s L0 data]> ∅)).

Definition supported : list string := ["Position"; "Velocity"; "Weight"].

(** The array that goes with a supported name. *)
Definition field (pos vel wt : ndarray) (key : string) : ndarray :=
  if String.eqb key "Position" then pos
  else if String.eqb key "Velocity" then vel
  else wt.

(** The first requested name that is not supported, if any. *)
Definition first_unsupported (columns : list string) : option string :=
  List.find (fun key => negb (bool_decide (key ∈ supported))) columns.

(** The successive look-ups of a list of keys: the first missing key, or
    the values in the order of the keys. *)
Fixpoint lookup_all (P : gmap string ndarray) (columns : list string)
  : string + list ndarray :=
  match columns with
  | [] => inr []
  | key :: rest =>
      match P !! key with
      | None => inl key
      | Some a =>
          match lookup_all P rest with
          | inl k => inl k
          | inr batch => inr (a :: batch)
          end
      end
  end.

(** ** The scenario of the specification *)

Definition f8 (n : Z) : num := of_Z float64 n.

Definition scenario_file : DataFrame :=
  [ {| col_x := f8 0; col_y := f8 0; col_z := f8 0;
       col_vx := f8 1; col_vy := f8 0; col_vz := f8 0 |};
    {| col_x := f8 5; col_y := f8 5; col_z := f8 5;
       col_vx := f8 0; col_vy := f8 1; col_vz := f8 0 |} ].

Definition scenario_read_csv : string -> exn + DataFrame :=
  fun _ => inr scenario_file.

(** An instance before set-up, and a store holding [BoxSize = 10]. *)
Definition blank : QPMMockDataSource :=
  {| path := ""; BoxSize := 0; scaled := false; rsd := None;
     velf := f8 0; _BoxSize0 := 0 |}.

Definition scenario_start : world :=
  {| self := blank; heap := [V3 (f8 10) (f8 10) (f8 10)] |}.

Definition scenario_args : Namespace :=
  {| args_path := "qpm.dat"; args_BoxSize := 0; args_scaled := true;
     args_rsd := Some x; args_velf := f8 2 |}.

Definition scenario_world : world :=
  snd (initialize scenario_args scenario_start).

Definition rank0 : Comm := {| rank := 0 |}.

(** A decimal number [n / 10^k]. *)
Definition dec (n : Z) (k : positive) : Q := Qmake n (10 ^ k)%positive.

(** [near], component by component. *)
Definition vnear (tol qx qy qz : Q) (v : vec3) : bool :=
  near tol qx (c0 v) && near tol qy (c1 v) && near tol qz (c2 v).

(** A store with two boxes of size 10, for a second, equal set of
    arguments. *)
Definition two_boxes : world :=
  {| self := blank;
     heap := [V3 (f8 10) (f8 10) (f8 10); V3 (f8 10) (f8 10) (f8 10)] |}.

(** Real space, unscaled: [scaled] off, no [rsd], [velf = 2]. *)
Definition plain_args : Namespace :=
  {| args_path := "qpm.dat"; args_BoxSize := 0; args_scaled := false;
     args_rsd := None; args_velf := f8 2 |}.

Definition plain_world : world :=
  snd (initialize plain_args scenario_start).

Definition scenario_args' : Namespace :=
  {| args_path := "qpm.dat"; args_BoxSize := 1; args_scaled := true;
     args_rsd := Some x; args_velf := f8 2 |}.

(** ** A particle that leaves the box by less than the rounding of its edge

    The file of the single record [0 0 0 -1e-7 0 0]: a particle at the
    origin with the velocity [-1e-7] along [x].  It is read in a box of size
    10, in redshift space along [x], unscaled, with [velf = 1]. *)

Definition edge_file : DataFrame :=
  [ {| col_x := f8 0; col_y := f8 0; col_z := f8 0;
       col_vx := literal (-1) 7; col_vy := f8 0; col_vz := f8 0 |} ].

Definition edge_read_csv : string -> exn + DataFrame :=
  fun _ => inr edge_file.

Definition edge_args : Namespace :=
  {| args_path := "edge.dat"; args_BoxSize := 0; args_scaled := false;
     args_rsd := Some x; args_velf := f8 1 |}.

Definition edge_world : world :=
  snd (initialize edge_args scenario_start).

(** ** Further configurations and files *)

(** Real space, scaled: no [rsd], [scaled] on. *)
Definition iso_args : Namespace :=
  {| args_path := "qpm.dat"; args_BoxSize := 0; args_scaled := true;
     args_rsd := None; args_velf := f8 2 |}.

Definition iso_world : world :=
  snd (initialize iso_args scenario_start).

(** A file that cannot be read. *)
Definition missing_read_csv : string -> exn + DataFrame :=
  fun _ => inl (ReadError "File qpm.dat does not exist").

(** A file without records. *)
Definition empty_read_csv : string -> exn + DataFrame :=
  fun _ => inr [].

(** ** Numbers of a format *)

(** [a] is a number of the format [dt]: its mantissa and exponent are the
    canonical ones. *)
Definition in_format (dt : dtype) (a : num) : bool :=
  valid_binary (prec dt) (emax dt) a.

(** Neither an infinity nor a NaN. *)
Definition is_finite (a : num) : bool :=
  match a with
  | S754_zero _ | S754_finite _ _ _ => true
  | _ => false
  end.

(** A box without extent along [x]. *)
Definition flat_start : world :=
  {| self := blank; heap := [V3 (f8 0) (f8 10) (f8 10)] |}.

Definition flat_world : world :=
  snd (initialize scenario_args flat_start).

(** * Properties *)

(** ** The monad *)

Ltac run :=
  unfold mbind, M_bind, mret, M_ret, bind, ret, raise, getattr, load, store,
    alloc, set__BoxSize0, DataSource_initialize, BoxSize_imul,
    BoxSize_item_imul;
  cbn [fst snd self heap path BoxSize scaled rsd velf _BoxSize0 for_].

Lemma comprehension_subscript (P : gmap string ndarray) (columns : list string) (w : world) :
  comprehension (subscript P) columns w =
    (match lookup_all P columns with
     | inl key => inl (KeyError key)
     | inr batch => inr batch
     end, w).
Proof.
  induction columns as [|key rest IH]; [reflexivity|].
  cbn [comprehension lookup_all]. unfold mbind, M_bind, bind.
  unfold subscript at 1.
  destruct (P !! key) as [a|]; [|reflexivity].
  unfold mret, M_ret, ret at 1. rewrite IH.
  destruct (lookup_all P rest); reflexivity.
Qed.

(** ** Arrays *)

Lemma zip_with_map_same {A B C D} (f : B -> C -> D) (g : A -> B) (h : A -> C) (l : list A) :
  zip_with f (map g l) (map h l) = map (fun a => f (g a) (h a)) l.
Proof. induction l as [|a l IH]; [reflexivity|]. cbn. now rewrite IH. Qed.

Lemma raw_zip {D} (f : vec3 -> vec3 -> D) (data : DataFrame) :
  zip_with f (raw_position data) (raw_velocity data) =
    map (fun r => f (V3 (astype float32 (col_x r)) (astype float32 (col_y r))
                        (astype float32 (col_z r)))
                    (V3 (astype float32 (col_vx r)) (astype float32 (col_vy r))
                        (astype float32 (col_vz r)))) data.
Proof. apply zip_with_map_same. Qed.

(** What the body of [readall] makes of the position array, against the
    three steps of the specification. *)
Lemma position_steps (s : QPMMockDataSource) (L0 : vec3) (data : DataFrame) :
  (let pos := raw_position data in
   let vel := imul (raw_velocity data) (velf s) in
   let pos :=
     match rsd s with
     | Some a => column_imod (column_iadd pos (index a) vel) (index a)
                             (getitem L0 (index a))
     | None => pos
     end in
   if scaled s then
     match rsd s with
     | None => imul pos qperp
     | Some a =>
         fold_left (fun pos i =>
                      if Nat.eqb i (index a) then column_imul pos i qpar
                      else column_imul pos i qperp)
                   [0; 1; 2]%nat pos
     end
   else pos)
  = zip_with (Spec.position s L0) (raw_position data) (raw_velocity data).
Proof.
  rewrite raw_zip. unfold Spec.position, Spec.rescale, Spec.redshift, Spec.ap_factor.
  unfold raw_position, raw_velocity, values_f4, imul, column_imod, column_iadd, column_imul.
  cbn zeta.
  destruct (rsd s) as [[]|], (scaled s); cbn [fold_left index Nat.eqb];
    repeat (rewrite map_map || rewrite zip_with_map_same);
    apply List.map_ext; intros r; reflexivity.
Qed.

(** ** readall, as a function of the configuration and the file *)

Lemma readall_eq (pd : string -> exn + DataFrame) (w : world) (data : DataFrame)
    (columns : list string) (comm : Comm) (bunchsize : nat) :
  pd (path (self w)) = inr data ->
  readall (Some pd) columns comm bunchsize w =
    (match lookup_all (fields (self w) (heap w !!! _BoxSize0 (self w)) data) columns with
     | inl key => inl (KeyError key)
     | inr batch => inr [batch]
     end, w).
Proof.
  intros Hread. unfold readall, import_pandas, read_csv. run. rewrite Hread.
  pose proof (position_steps (self w) (heap w !!! _BoxSize0 (self w)) data) as Hpos.
  cbn zeta in Hpos.
  unfold fields, Position_of, Velocity_of, Weight_of, ones.
  unfold raw_position, raw_velocity, values_f4 in *.
  destruct (rsd (self w)) as [a|] eqn:Hr; cbn beta iota zeta;
    rewrite comprehension_subscript, Hpos, length_zip_with, !length_map, Nat.min_id;
    destruct (lookup_all _ columns); reflexivity.
Qed.


Lemma fields_lookup (s : QPMMockDataSource) (L0 : vec3) (data : DataFrame) (key : string) :
  fields s L0 data !! key =
    if bool_decide (key ∈ supported)
    then Some (field (Position_of s L0 data) (Velocity_of s data) (Weight_of data) key)
    else None.
Proof.
  unfold fields, field, supported.
  destruct (String.eqb_spec key "Position") as [->|HP].
  { rewrite bool_decide_eq_true_2 by set_solver.
    now rewrite !lookup_insert_ne, lookup_insert_eq by discriminate. }
  destruct (String.eqb_spec key "Velocity") as [->|HV].
  { rewrite bool_decide_eq_true_2 by set_solver.
    now rewrite lookup_insert_ne, lookup_insert_eq by discriminate. }
  destruct (decide (key = "Weight")) as [->|HW].
  { rewrite bool_decide_eq_true_2 by set_solver.
    now rewrite lookup_insert_eq. }
  rewrite bool_decide_eq_false_2
    by (rewrite !elem_of_cons, elem_of_nil; intuition congruence).
  now rewrite !lookup_insert_ne, lookup_empty by congruence.
Qed.

Lemma lookup_all_fields (s : QPMMockDataSource) (L0 : vec3) (data : DataFrame)
    (columns : list string) :
  lookup_all (fields s L0 data) columns =
    match first_unsupported columns with
    | Some key => inl key
    | None =>
        inr (map (field (Position_of s L0 data) (Velocity_of s data) (Weight_of data))
                 columns)
    end.
Proof.
  unfold first_unsupported.
  induction columns as [|key rest IH]; [reflexivity|].
  cbn [lookup_all List.find map]. rewrite fields_lookup.
  destruct (bool_decide (key ∈ supported)); cbn [negb]; [|reflexivity].
  rewrite IH. now destruct (List.find _ rest).
Qed.

(** A read leaves the attributes and the arrays as they were, whatever it
    returns or raises. *)
Lemma readall_frame (pandas : option (string -> exn + DataFrame))
    (columns : list string) (comm : Comm) (bunchsize : nat) (w : world) :
  snd (readall pandas columns comm bunchsize w) = w.
Proof.
  destruct pandas as [pd|]; [|reflexivity].
  destruct (pd (path (self w))) as [e|data] eqn:Hread.
  - unfold readall, import_pandas, read_csv. run. now rewrite Hread.
  - now rewrite (readall_eq _ _ _ _ _ _ Hread).
Qed.

(** Without pandas the read raises the ImportError of the method. *)
Lemma readall_import_error
    (columns : list string) (comm : Comm) (bunchsize : nat) (w : world) :
  readall None columns comm bunchsize w =
    (inl (ImportError "pandas must be installed to use QPMMockDataSource"), w).
Proof. reflexivity. Qed.

(** An exception of [read_csv] is the exception of the read. *)
Lemma readall_read_error (pd : string -> exn + DataFrame) (e : exn)
    (columns : list string) (comm : Comm) (bunchsize : nat) (w : world) :
  pd (path (self w)) = inl e ->
  readall (Some pd) columns comm bunchsize w = (inl e, w).
Proof.
  intros Hread. unfold readall, import_pandas, read_csv. run. now rewrite Hread.
Qed.

(** The result of a read in terms of the requested names. *)
Lemma readall_columns (pd : string -> exn + DataFrame) (w : world) (data : DataFrame)
    (columns : list string) (comm : Comm) (bunchsize : nat) :
  pd (path (self w)) = inr data ->
  readall (Some pd) columns comm bunchsize w =
    (match first_unsupported columns with
     | Some key => inl (KeyError key)
     | None =>
         inr [map (field (Position_of (self w) (heap w !!! _BoxSize0 (self w)) data)
                         (Velocity_of (self w) data) (Weight_of data))
                  columns]
     end, w).
Proof.
  intros Hread. rewrite (readall_eq _ _ _ _ _ _ Hread), lookup_all_fields.
  now destruct (first_unsupported columns).
Qed.

(** ** initialize, as a function of the arguments and the store *)

Lemma initialize_eq (args : Namespace) (w0 : world) (b : vec3) :
  heap w0 !! args_BoxSize args = Some b ->
  initialize args w0 =
    (inr tt,
     {| self := {| path := args_path args;
                   BoxSize := args_BoxSize args;
                   scaled := args_scaled args;
                   rsd := args_rsd args;
                   velf := args_velf args;
                   _BoxSize0 := length (heap w0) |};
        heap := <[args_BoxSize args :=
                    Spec.working_size (args_scaled args) (args_rsd args) b]>
                  (heap w0 ++ [b])%list |}).
Proof.
  intros Hb. pose proof (lookup_lt_Some _ _ _ Hb) as Hlt.
  assert (Hlt' : args_BoxSize args < length (heap w0 ++ [b])%list)
    by (rewrite length_app; lia).
  unfold initialize. run. rewrite (list_lookup_total_correct _ _ _ Hb).
  unfold Spec.working_size, Spec.ap_factor.
  destruct (args_scaled args).
  - destruct (args_rsd args) as [[]|];
      repeat (progress (run; cbn [for_ index Nat.eqb]));
      repeat (rewrite lookup_total_app_l by assumption);
      rewrite ?(list_lookup_total_correct _ _ _ Hb);
      repeat (rewrite list_lookup_total_insert_eq by (rewrite ?length_insert; assumption));
      rewrite ?list_insert_insert_eq; reflexivity.
  - rewrite list_insert_id; [reflexivity|].
    rewrite lookup_app_l by assumption. exact Hb.
Qed.

(** What set-up does to the arrays it does not own: nothing. *)
Lemma initialize_heap_other (args : Namespace) (w : world) (l : loc) :
  l <> args_BoxSize args -> l < length (heap w) ->
  heap (snd (initialize args w)) !! l = heap w !! l.
Proof.
  intros Hne Hlt. unfold initialize. run.
  destruct (args_scaled args).
  - destruct (args_rsd args) as [[]|];
      repeat (progress (run; cbn [for_ index Nat.eqb]));
      rewrite !list_lookup_insert_ne by congruence;
      now apply lookup_app_l.
  - run. now apply lookup_app_l.
Qed.

Lemma perform_preserves (pandas : option (string -> exn + DataFrame))
    (op : operation) (w : world) (l : loc) (v : vec3) :
  (forall a, op = Configure a -> args_BoxSize a <> l) ->
  heap w !! l = Some v ->
  heap (perform pandas w op) !! l = Some v.
Proof.
  intros Hop Hv. destruct op as [a|columns comm bunchsize]; cbn [perform].
  - rewrite initialize_heap_other; [exact Hv| |].
    + intros Heq. now apply (Hop a).
    + now apply lookup_lt_Some in Hv.
  - now rewrite readall_frame.
Qed.

Lemma perform_all_preserves (pandas : option (string -> exn + DataFrame))
    (ops : list operation) (w : world) (l : loc) (v : vec3) :
  Forall (fun op => forall a, op = Configure a -> args_BoxSize a <> l) ops ->
  heap w !! l = Some v ->
  heap (perform_all pandas ops w) !! l = Some v.
Proof.
  unfold perform_all. revert w.
  induction ops as [|op ops IH]; intros w Hops Hv; [exact Hv|].
  inversion Hops as [|? ? Hop Hrest]; subst. cbn [fold_left].
  apply IH; [exact Hrest|]. now apply perform_preserves.
Qed.

(** The output of a read is determined by the path, the three transform
    parameters and the content of the captured box size. *)
Lemma readall_determined (pandas : option (string -> exn + DataFrame))
    (columns : list string) (comm : Comm) (bunchsize : nat) (w w' : world) :
  path (self w') = path (self w) ->
  scaled (self w') = scaled (self w) ->
  rsd (self w') = rsd (self w) ->
  velf (self w') = velf (self w) ->
  heap w' !!! _BoxSize0 (self w') = heap w !!! _BoxSize0 (self w) ->
  fst (readall pandas columns comm bunchsize w') =
  fst (readall pandas columns comm bunchsize w).
Proof.
  intros Hp Hs Hr Hv HL. destruct pandas as [pd|]; [|reflexivity].
  destruct (pd (path (self w))) as [e|data] eqn:Hread.
  - rewrite (readall_read_error _ e _ _ _ w) by assumption.
    rewrite (readall_read_error _ e _ _ _ w') by congruence. reflexivity.
  - rewrite (readall_eq _ w data) by assumption.
    rewrite (readall_eq _ w' data) by congruence.
    unfold fields, Position_of, Velocity_of, Spec.position.
    now rewrite Hs, Hr, Hv, HL.
Qed.

(** The position along the [rsd] axis: the sum of position and scaled
    velocity, reduced modulo the captured box length, and only then
    multiplied by [qpar] when [scaled]. *)
Lemma position_along_rsd (s : QPMMockDataSource) (L0 p v : vec3) (a : axis) :
  rsd s = Some a ->
  getitem (Spec.position s L0 p v) (index a) =
    let d := index a in
    let wrapped :=
      inplace remainder
        (add float32 (getitem p d) (inplace multiply (getitem v d) (velf s)))
        (getitem L0 d) in
    if scaled s then multiply float32 wrapped (astype float32 qpar) else wrapped.
Proof.
  intros Hr. unfold Spec.position. rewrite Hr.
  destruct a, (scaled s), p, v; reflexivity.
Qed.

(** ** The periodic wrap of a particle that stays on the positive side

    When the dividend is not negative, [fmod] divides the two mantissas as
    integers and its result needs no rounding: the remainder is exact and
    lies between zero and the divisor. *)

Section Wrap.

Local Open Scope Z_scope.

Lemma digits2_pos_bounds (p : positive) :
  2 ^ (Zpos (digits2_pos p) - 1) <= Zpos p < 2 ^ Zpos (digits2_pos p).
Proof.
  induction p as [p IH|p IH|]; cbn [digits2_pos].
  - rewrite Pos2Z.inj_succ, Z.pow_succ_r by lia.
    replace (Z.succ (Zpos (digits2_pos p)) - 1) with (Z.succ (Zpos (digits2_pos p) - 1)) by lia.
    rewrite Z.pow_succ_r by lia. lia.
  - rewrite Pos2Z.inj_succ, Z.pow_succ_r by lia.
    replace (Z.succ (Zpos (digits2_pos p)) - 1) with (Z.succ (Zpos (digits2_pos p) - 1)) by lia.
    rewrite Z.pow_succ_r by lia. lia.
  - cbn. lia.
Qed.

Lemma digits2_pos_le (p q : positive) :
  Zpos p <= Zpos q -> Zpos (digits2_pos p) <= Zpos (digits2_pos q).
Proof.
  intros Hle. pose proof (digits2_pos_bounds p) as [Hp _].
  pose proof (digits2_pos_bounds q) as [_ Hq].
  assert (H : 2 ^ (Zpos (digits2_pos p) - 1) < 2 ^ Zpos (digits2_pos q)) by lia.
  apply Z.pow_lt_mono_r_iff in H; lia.
Qed.

Lemma iter_xO_value (m d : positive) :
  Zpos (Pos.iter xO m d) = Zpos m * 2 ^ Zpos d.
Proof.
  induction d as [|d IH] using Pos.peano_ind.
  - cbn. lia.
  - rewrite Pos.iter_succ, Pos2Z.inj_xO, IH, Pos2Z.inj_succ, Z.pow_succ_r by lia. lia.
Qed.

Lemma iter_xO_digits (m d : positive) :
  Zpos (digits2_pos (Pos.iter xO m d)) = Zpos (digits2_pos m) + Zpos d.
Proof.
  induction d as [|d IH] using Pos.peano_ind.
  - cbn. lia.
  - rewrite Pos.iter_succ. cbn [digits2_pos]. rewrite Pos2Z.inj_succ, IH. lia.
Qed.

Lemma binary_round_aux_canonical (prec emax : Z) (s : bool) (m : positive) (e : Z) :
  fexp prec emax (Zpos (digits2_pos m) + e) = e ->
  e <= emax - prec ->
  binary_round_aux prec emax s (Zpos m) e loc_Exact = S754_finite s m e.
Proof.
  intros Hcan Hle. unfold binary_round_aux, shr_fexp.
  cbn [Zdigits2 shr_record_of_loc]. rewrite Hcan, Z.sub_diag.
  cbn [shr shr_m loc_of_shr_record round_nearest_even Zdigits2 shr_record_of_loc].
  rewrite Hcan, Z.sub_diag. cbn [shr shr_m].
  apply Z.leb_le in Hle. now rewrite Hle.
Qed.

Lemma binary_round_exact (prec emax : Z) (s : bool) (m : positive) (e : Z) :
  prec < emax ->
  Zpos (digits2_pos m) <= prec ->
  emin prec emax <= e ->
  Zpos (digits2_pos m) + e <= emax ->
  exists m',
    binary_round prec emax s m e
      = S754_finite s m' (fexp prec emax (Zpos (digits2_pos m) + e))
    /\ Zpos m' = Zpos m * 2 ^ (e - fexp prec emax (Zpos (digits2_pos m) + e))
    /\ Zpos (digits2_pos m') + fexp prec emax (Zpos (digits2_pos m) + e)
       = Zpos (digits2_pos m) + e.
Proof.
  intros Hmax Hd He Hof. unfold binary_round.
  set (e0 := fexp prec emax (Zpos (digits2_pos m) + e)).
  assert (He0 : e0 <= e /\ emin prec emax <= e0 /\ e0 <= emax - prec).
  { subst e0. unfold fexp, emin in *. lia. }
  unfold shl_align. destruct (e0 - e) as [|d|d] eqn:Hdiff; [|lia|].
  - assert (Heq : e0 = e) by lia. exists m.
    rewrite binary_round_aux_canonical; [|subst e0; congruence|lia].
    rewrite Heq. split; [reflexivity|split; [|lia]].
    rewrite Z.sub_diag. lia.
  - exists (Pos.iter xO m d).
    assert (Hd' : Zpos d = e - e0) by lia.
    rewrite binary_round_aux_canonical; [| |lia].
    + split; [reflexivity|split].
      * now rewrite iter_xO_value, Hd'.
      * rewrite iter_xO_digits; lia.
    + rewrite iter_xO_digits. replace (Zpos (digits2_pos m) + Zpos d + e0)
        with (Zpos (digits2_pos m) + e) by lia. reflexivity.
Qed.

Lemma shl_align_value (m : positive) (e ez : Z) :
  ez <= e ->
  Zpos (fst (shl_align m e ez)) = Zpos m * 2 ^ (e - ez)
  /\ Zpos (digits2_pos (fst (shl_align m e ez))) = Zpos (digits2_pos m) + (e - ez).
Proof.
  intros Hle. unfold shl_align.
  destruct (ez - e) as [|d|d] eqn:Hdiff; [|lia|]; cbn [fst].
  - replace (e - ez) with 0 by lia. cbn. lia.
  - replace (e - ez) with (Zpos d) by lia.
    now rewrite iter_xO_value, iter_xO_digits.
Qed.

Lemma canonical_bounds (prec emax : Z) (m : positive) (e : Z) :
  fexp prec emax (Zpos (digits2_pos m) + e) = e ->
  emin prec emax <= e /\ Zpos (digits2_pos m) <= prec.
Proof. unfold fexp. lia. Qed.

(** Two canonical positive numbers compare as their values do. *)
Lemma SFltb_canonical (prec emax : Z) (m1 m2 : positive) (e1 e2 : Z) :
  0 < prec ->
  fexp prec emax (Zpos (digits2_pos m1) + e1) = e1 ->
  fexp prec emax (Zpos (digits2_pos m2) + e2) = e2 ->
  Zpos m1 * 2 ^ (e1 - emin prec emax) < Zpos m2 * 2 ^ (e2 - emin prec emax) ->
  SFltb (S754_finite false m1 e1) (S754_finite false m2 e2) = true.
Proof.
  intros Hprec H1 H2 Hlt. unfold SFltb, SFcompare.
  destruct (canonical_bounds _ _ _ _ H1) as [He1 Hd1].
  destruct (canonical_bounds _ _ _ _ H2) as [He2 Hd2].
  destruct (Z.compare_spec e1 e2) as [Heq|Hlt'|Hgt]; [|reflexivity|exfalso].
  - subst e2. apply Z.mul_lt_mono_pos_r in Hlt; [|apply Z.pow_pos_nonneg; lia].
    change (Pos.compare_cont Eq m1 m2) with (Pos.compare m1 m2).
    apply Pos.compare_lt_iff in Hlt. now rewrite Hlt.
  - assert (Hn : Zpos (digits2_pos m1) = prec) by (unfold fexp in H1; lia).
    pose proof (digits2_pos_bounds m1) as [Hm1 _]. rewrite Hn in Hm1.
    pose proof (digits2_pos_bounds m2) as [_ Hm2].
    assert (Hm2' : Zpos m2 < 2 ^ prec).
    { eapply Z.lt_le_trans; [exact Hm2|]. apply Z.pow_le_mono_r; lia. }
    replace (e1 - emin prec emax) with ((e1 - e2 - 1) + 1 + (e2 - emin prec emax)) in Hlt by lia.
    rewrite !Z.pow_add_r in Hlt by lia.
    assert (Hp : 0 < 2 ^ (e2 - emin prec emax)) by (apply Z.pow_pos_nonneg; lia).
    assert (Hq : 1 <= 2 ^ (e1 - e2 - 1)) by (apply Z.lt_pred_le, Z.pow_pos_nonneg; lia).
    assert (Hr : 2 ^ prec = 2 * 2 ^ (prec - 1)).
    { replace prec with (Z.succ (prec - 1)) at 1 by lia. apply Z.pow_succ_r. lia. }
    change (2 ^ 1) with 2 in Hlt.
    rewrite Z.mul_assoc in Hlt. apply Z.mul_lt_mono_pos_r in Hlt; [|exact Hp].
    assert (Hs : Zpos m1 * 2 <= Zpos m1 * (2 ^ (e1 - e2 - 1) * 2)).
    { apply Z.mul_le_mono_nonneg_l; lia. }
    lia.
Qed.


Lemma format_bounds (dt : dtype) : 0 < prec dt /\ prec dt < emax dt.
Proof. destruct dt; cbn; lia. Qed.

(** The remainder of a non-negative number by a positive one is exact: no
    rounding, the result is [fmod]'s and lies in [[0, b)]. *)
Lemma remainder_nonneg (dt : dtype) (ma mb : positive) (ea eb : Z) :
  bounded (prec dt) (emax dt) ma ea = true ->
  bounded (prec dt) (emax dt) mb eb = true ->
  remainder dt (S754_finite false ma ea) (S754_finite false mb eb)
    = fmod dt (S754_finite false ma ea) (S754_finite false mb eb)
  /\ SFleb zero (remainder dt (S754_finite false ma ea) (S754_finite false mb eb)) = true
  /\ SFltb (remainder dt (S754_finite false ma ea) (S754_finite false mb eb))
           (S754_finite false mb eb) = true.
Proof.
  intros Ha Hb. destruct (format_bounds dt) as [Hprec Hmax].
  unfold bounded, canonical_mantissa in Ha, Hb.
  apply andb_true_iff in Ha as [Hca Hea], Hb as [Hcb Heb].
  apply Z.eqb_eq in Hca, Hcb. apply Z.leb_le in Hea, Heb.
  destruct (canonical_bounds _ _ _ _ Hca) as [Hma Hda].
  destruct (canonical_bounds _ _ _ _ Hcb) as [Hmb Hdb].
  unfold remainder, fmod.
  set (ez := Z.min ea eb).
  destruct (shl_align_value ma ea ez ltac:(lia)) as [Hza Hza'].
  destruct (shl_align_value mb eb ez ltac:(lia)) as [Hzb Hzb'].
  set (za := fst (shl_align ma ea ez)) in *.
  set (zb := fst (shl_align mb eb ez)) in *.
  rewrite Z.rem_mod_nonneg by lia.
  pose proof (Z.mod_pos_bound (Zpos za) (Zpos zb) ltac:(lia)) as Hr.
  pose proof (Z.mod_le (Zpos za) (Zpos zb) ltac:(lia) ltac:(lia)) as Hr'.
  cbn [cond_Zopp].
  destruct (Zpos za mod Zpos zb) as [|pr|pr] eqn:Hmod; [| |lia].
  - cbn. repeat split.
  - cbn [binary_normalize].
    assert (Hdig : Zpos (digits2_pos pr) <= prec dt).
    { destruct (Z.le_gt_cases ea eb).
      - transitivity (Zpos (digits2_pos za)); [now apply digits2_pos_le|].
        rewrite Hza'. lia.
      - transitivity (Zpos (digits2_pos zb)); [apply digits2_pos_le; lia|].
        rewrite Hzb'. lia. }
    assert (Hof : Zpos (digits2_pos pr) + ez <= emax dt).
    { assert (Zpos (digits2_pos pr) <= Zpos (digits2_pos zb))
        by (apply digits2_pos_le; lia). lia. }
    destruct (binary_round_exact (prec dt) (emax dt) false pr ez Hmax Hdig
                ltac:(lia) Hof) as (m' & Hround & Hval & Hcan).
    rewrite Hround. cbn [is_nonzero is_negative SFeqb SFltb SFcompare zero negb
                          Bool.eqb andb].
    split; [reflexivity|]. split; [reflexivity|].
    set (e0 := fexp (prec dt) (emax dt) (Zpos (digits2_pos pr) + ez)) in *.
    assert (He0 : emin (prec dt) (emax dt) <= e0 <= ez)
      by (subst e0; unfold fexp, emin in *; lia).
    apply (SFltb_canonical (prec dt) (emax dt)); [exact Hprec| | |].
    + unfold fexp. subst e0. unfold fexp in *. lia.
    + exact Hcb.
    + rewrite Hval.
      replace (Zpos pr * 2 ^ (ez - e0) * 2 ^ (e0 - emin (prec dt) (emax dt)))
        with (Zpos pr * 2 ^ (ez - emin (prec dt) (emax dt))).
      2:{ rewrite <- Z.mul_assoc, <- Z.pow_add_r by lia. f_equal. f_equal. lia. }
      replace (Zpos mb * 2 ^ (eb - emin (prec dt) (emax dt)))
        with (Zpos zb * 2 ^ (ez - emin (prec dt) (emax dt))).
      2:{ rewrite Hzb, <- Z.mul_assoc, <- Z.pow_add_r by lia. f_equal. f_equal. lia. }
      apply Z.mul_lt_mono_pos_r; [apply Z.pow_pos_nonneg; lia|lia].
Qed.

Lemma remainder_zero (dt : dtype) (s : bool) (mb : positive) (eb : Z) :
  remainder dt (S754_zero s) (S754_finite false mb eb) = S754_zero false.
Proof. reflexivity. Qed.

End Wrap.

(** The two loops of an in-place operation with a scalar. *)
Lemma inplace_fits (op : dtype -> num -> num -> num) (a q : num) :
  fits_float32 q = true -> inplace op a q = op float32 a (astype float32 q).
Proof. intros Hq. unfold inplace. now rewrite Hq. Qed.

Lemma inplace_wide (op : dtype -> num -> num -> num) (a q : num) :
  fits_float32 q = false ->
  inplace op a q = astype float32 (op float64 (astype float64 a) q).
Proof. intros Hq. unfold inplace. now rewrite Hq. Qed.

(** In redshift space and unscaled, with a box length that fits single
    precision, a particle whose sum of position and velocity is a
    non-negative number of the format comes out inside the box, below the
    single precision box length. *)
Lemma wrap_in_box (s : QPMMockDataSource) (L0 p v : vec3) (a : axis)
    (ma mb : positive) (ea eb : Z) :
  rsd s = Some a ->
  scaled s = false ->
  fits_float32 (getitem L0 (index a)) = true ->
  add float32 (getitem p (index a)) (inplace multiply (getitem v (index a)) (velf s))
    = S754_finite false ma ea ->
  bounded (prec float32) (emax float32) ma ea = true ->
  astype float32 (getitem L0 (index a)) = S754_finite false mb eb ->
  bounded (prec float32) (emax float32) mb eb = true ->
  SFleb zero (getitem (Spec.position s L0 p v) (index a)) = true
  /\ SFltb (getitem (Spec.position s L0 p v) (index a))
           (astype float32 (getitem L0 (index a))) = true.
Proof.
  intros Hr Hs Hfit Hsum Ha HL Hb.
  rewrite (position_along_rsd _ _ _ _ _ Hr). cbn zeta.
  rewrite Hs, Hsum, (inplace_fits _ _ _ Hfit), HL.
  now destruct (remainder_nonneg float32 ma mb ea eb Ha Hb) as (_ & H0 & H1).
Qed.

(** A particle at [x = 5] with the velocity 7 in the box of size 10 comes
    out at [x = 2]. *)
Example wrap_in_box_example :
  let pos := Spec.position (self edge_world) (V3 (f8 10) (f8 10) (f8 10))
               (V3 (of_Z float32 5) zero zero) (V3 (of_Z float32 7) zero zero) in
  (SFleb zero (getitem pos (index x)) = true
   /\ SFltb (getitem pos (index x)) (astype float32 (f8 10)) = true)
  /\ getitem pos (index x) = of_Z float32 2.
Proof.
  split; [|reflexivity].
  apply (wrap_in_box (self edge_world) (V3 (f8 10) (f8 10) (f8 10))
           (V3 (of_Z float32 5) zero zero) (V3 (of_Z float32 7) zero zero)
           x 12582912 10485760 (-20) (-20));
    reflexivity.
Qed.

(** A velocity of [-10] from the origin in the box of size 10: the
    remainder is zero and takes the sign of the box length. *)
Example zero_remainder_example :
  let pos := Spec.position (self edge_world) (V3 (f8 10) (f8 10) (f8 10))
               (V3 zero zero zero) (V3 (of_Z float32 (-10)) zero zero) in
  fmod float32 (of_Z float32 (-10)) (of_Z float32 10) = S754_zero true
  /\ getitem pos (index x) = S754_zero false.
Proof. split; reflexivity. Qed.

(** With [velf = 1e40], which does not fit single precision, the product
    is taken in double precision: the velocities [1e-10], [0] and [inf]
    become [1e30], [0] and [inf]; in single precision [velf] would be
    infinite and the first two products infinite and NaN. *)
Example wide_velf_example :
  let velf := f8 (10 ^ 40) in
  let v := V3 (astype float32 (literal 1 10)) zero (S754_infinity false) in
  fits_float32 velf = false
  /\ Spec.scale_velocity velf v
     = V3 (astype float32 (f8 (10 ^ 30))) zero (S754_infinity false)
  /\ vmap (fun a => multiply float32 a (astype float32 velf)) v
     = V3 (S754_infinity false) S754_nan (S754_infinity false).
Proof. repeat split; reflexivity. Qed.

(** A box length of [3.4028235e38], just above the largest number of
    single precision: it does not fit, [%=] runs in double precision, and a
    particle at the largest number of single precision stays there, at the
    single precision box length and not below it. *)
Example wide_box_example :
  let top := ((2 ^ 24 - 1) * 2 ^ 104)%Z in
  let b := f8 (top + 2 ^ 80) in
  let pos := Spec.position (self edge_world) (V3 b b b)
               (V3 (of_Z float32 top) zero zero) (V3 zero zero zero) in
  fits_float32 b = false
  /\ astype float32 b = of_Z float32 top
  /\ getitem pos (index x) = of_Z float32 top
  /\ SFltb (getitem pos (index x)) (astype float32 b) = false.
Proof. repeat split; reflexivity. Qed.

(** * The claims *)

(** C10: a read leaves the configuration as it found it: the attributes
    [path], [BoxSize], [scaled], [rsd], [velf] and [_BoxSize0] and every
    array of the store, the working and the captured box size among them,
    are the same after the call ([qpar] and [qperp] are constants).  So a
    second read of the same file for the same names, whatever communicator
    and bunch size it is given, returns what the first returned. *)
Theorem readall_leaves_configuration
    (pandas : option (string -> exn + DataFrame)) (columns : list string)
    (comm comm' : Comm) (bunchsize bunchsize' : nat) (w : world) :
  snd (readall pandas columns comm bunchsize w) = w
  /\ fst (readall pandas columns comm' bunchsize'
            (snd (readall pandas columns comm bunchsize w)))
     = fst (readall pandas columns comm bunchsize w).
Proof.
  split; [apply readall_frame|].
  rewrite readall_frame. reflexivity.
Qed.

(** C5: whatever [scaled], [rsd] and [velf] are, the Velocity handed out is
    the velocity read from the file, in single precision, with every value
    multiplied by [velf] as [vel *= self.velf] multiplies: in single
    precision by [velf] cast down when [velf] fits single precision, and
    otherwise in double precision with the product cast back.  Neither
    [qpar] nor [qperp] enters it. *)
Theorem velocity_scaled_by_velf_only
    (pd : string -> exn + DataFrame) (w : world) (data : DataFrame)
    (comm : Comm) (bunchsize : nat) :
  pd (path (self w)) = inr data ->
  readall (Some pd) ["Velocity"] comm bunchsize w =
    (inr [[Array2 float32
             (map (vmap (fun a =>
                           if fits_float32 (velf (self w))
                           then multiply float32 a (astype float32 (velf (self w)))
                           else astype float32
                                  (multiply float64 (astype float64 a) (velf (self w)))))
                  (raw_velocity data))]], w).
Proof.
  intros Hread. rewrite (readall_columns _ _ _ _ _ _ Hread). reflexivity.
Qed.

Lemma velocity_scaled_by_velf_only_witness :
  readall (Some scenario_read_csv) ["Velocity"] rank0 0 scenario_world =
    (inr [[Array2 float32
             (map (vmap (fun a =>
                           if fits_float32 (velf (self scenario_world))
                           then multiply float32 a
                                  (astype float32 (velf (self scenario_world)))
                           else astype float32
                                  (multiply float64 (astype float64 a)
                                            (velf (self scenario_world)))))
                  (raw_velocity scenario_file))]], scenario_world).
Proof.
  apply (velocity_scaled_by_velf_only scenario_read_csv scenario_world scenario_file).
  reflexivity.
Defined.

(** C4: with [scaled] off and no [rsd], the Position is the position read
    from the file (in single precision), the Velocity is the velocity read
    from the file multiplied by [velf] as [vel *= self.velf] multiplies (in
    single precision when [velf] fits it, in double precision with the
    product cast back otherwise), and the Weight is an array of as many ones
    as there are records. *)
Theorem unscaled_real_space
    (pd : string -> exn + DataFrame) (w : world) (data : DataFrame)
    (comm : Comm) (bunchsize : nat) :
  scaled (self w) = false ->
  rsd (self w) = None ->
  pd (path (self w)) = inr data ->
  readall (Some pd) ["Position"; "Velocity"; "Weight"] comm bunchsize w =
    (inr [[Array2 float32 (raw_position data);
           Array2 float32
             (map (vmap (fun a =>
                           if fits_float32 (velf (self w))
                           then multiply float32 a (astype float32 (velf (self w)))
                           else astype float32
                                  (multiply float64 (astype float64 a) (velf (self w)))))
                  (raw_velocity data));
           Array1 float64 (replicate (length data) (of_Z float64 1))]], w).
Proof.
  intros Hs Hr Hread. rewrite (readall_columns _ _ _ _ _ _ Hread).
  cbn [first_unsupported List.find map field String.eqb Ascii.eqb Bool.eqb negb].
  unfold Position_of, Spec.position. rewrite Hs, Hr.
  cbn [Spec.rescale Spec.redshift]. rewrite raw_zip.
  unfold raw_position, values_f4. reflexivity.
Qed.

Lemma unscaled_real_space_witness :
  readall (Some scenario_read_csv) ["Position"; "Velocity"; "Weight"] rank0 0 plain_world =
    (inr [[Array2 float32 (raw_position scenario_file);
           Array2 float32
             (map (vmap (fun a =>
                           if fits_float32 (velf (self plain_world))
                           then multiply float32 a
                                  (astype float32 (velf (self plain_world)))
                           else astype float32
                                  (multiply float64 (astype float64 a)
                                            (velf (self plain_world)))))
                  (raw_velocity scenario_file));
           Array1 float64 (replicate (length scenario_file) (of_Z float64 1))]], plain_world).
Proof.
  apply (unscaled_real_space scenario_read_csv plain_world scenario_file); reflexivity.
Defined.

(** C8: when the file has been read, a request that contains a name outside
    Position, Velocity and Weight raises the KeyError of the first such name
    (the unsupported-field error) and hands out nothing; a request made of
    supported names only yields one batch with the array of each name, in
    the order of the request.  When the import or the file fails instead, a
    request with an unsupported name raises as well. *)
Theorem requested_fields
    (pd : string -> exn + DataFrame) (w : world) (data : DataFrame)
    (columns : list string) (comm : Comm) (bunchsize : nat) :
  pd (path (self w)) = inr data ->
  (forall key, key ∈ columns -> key ∉ supported ->
     exists k, first_unsupported columns = Some k /\ k ∈ columns /\ (k ∉ supported) /\
       readall (Some pd) columns comm bunchsize w = (inl (KeyError k), w))
  /\ (Forall (fun key => key ∈ supported) columns ->
       readall (Some pd) columns comm bunchsize w =
         (inr [map (field (Position_of (self w) (heap w !!! _BoxSize0 (self w)) data)
                          (Velocity_of (self w) data) (Weight_of data))
                   columns], w))
  /\ (forall pandas key, key ∈ columns -> key ∉ supported ->
       exists e, readall pandas columns comm bunchsize w = (inl e, w)).
Proof.
  intros Hread.
  assert (Hfind : forall key, key ∈ columns -> key ∉ supported ->
            exists k, first_unsupported columns = Some k /\ k ∈ columns /\ k ∉ supported).
  { intros key Hin Hout. unfold first_unsupported.
    destruct (List.find _ columns) as [k|] eqn:Hk.
    - apply List.find_some in Hk as [Hk1 Hk2]. exists k. split; [reflexivity|].
      split; [now apply list_elem_of_In|].
      apply negb_true_iff in Hk2. now apply bool_decide_eq_false in Hk2.
    - exfalso. apply list_elem_of_In in Hin.
      apply (List.find_none _ _ Hk) in Hin.
      apply negb_false_iff, bool_decide_eq_true in Hin. contradiction. }
  split; [|split].
  - intros key Hin Hout. destruct (Hfind key Hin Hout) as (k & Hk & Hkin & Hkout).
    exists k. repeat split; try assumption.
    now rewrite (readall_columns _ _ _ _ _ _ Hread), Hk.
  - intros Hall. rewrite (readall_columns _ _ _ _ _ _ Hread).
    destruct (first_unsupported columns) as [k|] eqn:Hk; [|reflexivity].
    exfalso. unfold first_unsupported in Hk.
    apply List.find_some in Hk as [Hk1 Hk2].
    apply negb_true_iff, bool_decide_eq_false in Hk2. apply Hk2.
    rewrite Forall_forall in Hall. apply Hall. now apply list_elem_of_In.
  - intros pandas key Hin Hout. destruct pandas as [pd'|].
    + destruct (pd' (path (self w))) as [e|data'] eqn:Hread'.
      * exists e. now apply readall_read_error.
      * destruct (Hfind key Hin Hout) as (k & Hk & _).
        exists (KeyError k). now rewrite (readall_columns _ _ _ _ _ _ Hread'), Hk.
    + eexists. reflexivity.
Qed.

Lemma requested_fields_witness :
  (forall key, key ∈ ["Weight"; "Mass"; "Position"] -> key ∉ supported ->
     exists k, first_unsupported ["Weight"; "Mass"; "Position"] = Some k /\
       k ∈ ["Weight"; "Mass"; "Position"] /\ (k ∉ supported) /\
       readall (Some scenario_read_csv) ["Weight"; "Mass"; "Position"] rank0 0
               scenario_world = (inl (KeyError k), scenario_world))
  /\ (Forall (fun key => key ∈ supported) ["Weight"; "Mass"; "Position"] ->
       readall (Some scenario_read_csv) ["Weight"; "Mass"; "Position"] rank0 0
               scenario_world =
         (inr [map (field (Position_of (self scenario_world)
                             (heap scenario_world !!! _BoxSize0 (self scenario_world))
                             scenario_file)
                          (Velocity_of (self scenario_world) scenario_file)
                          (Weight_of scenario_file))
                   ["Weight"; "Mass"; "Position"]], scenario_world))
  /\ (forall pandas key, key ∈ ["Weight"; "Mass"; "Position"] -> key ∉ supported ->
       exists e, readall pandas ["Weight"; "Mass"; "Position"] rank0 0 scenario_world
                 = (inl e, scenario_world)).
Proof.
  apply (requested_fields scenario_read_csv scenario_world scenario_file).
  reflexivity.
Defined.

Example unknown_field :
  readall (Some scenario_read_csv) ["Weight"; "Mass"; "Position"] rank0 0 scenario_world
  = (inl (KeyError "Mass"), scenario_world).
Proof. vm_compute. reflexivity. Qed.

(** C6, as stated: the Weight handed out would be a single precision array.
    In the scenario of the specification it is not: [numpy.ones] is called
    without an element type and makes doubles. *)
Lemma weight_is_not_float32 :
  ~ (exists a,
       fst (readall (Some scenario_read_csv) ["Weight"] rank0 0 scenario_world)
         = inr [[a]]
       /\ dtype_of a = float32).
Proof.
  intros (a & Ha & Hdt). vm_compute in Ha.
  injection Ha as <-. discriminate Hdt.
Qed.

(** C6, amended: for a file of N records the Weight handed out is a
    one-dimensional array of N double precision numbers, each equal to 1.0. *)
Theorem weight_is_ones
    (pd : string -> exn + DataFrame) (w : world) (data : DataFrame)
    (comm : Comm) (bunchsize : nat) :
  pd (path (self w)) = inr data ->
  readall (Some pd) ["Weight"] comm bunchsize w =
    (inr [[Array1 float64 (replicate (length data) (of_Z float64 1))]], w)
  /\ len (Array1 float64 (replicate (length data) (of_Z float64 1))) = length data
  /\ near 0 1 (of_Z float64 1) = true.
Proof.
  intros Hread. split; [|split].
  - now rewrite (readall_columns _ _ _ _ _ _ Hread).
  - cbn [len]. apply length_replicate.
  - reflexivity.
Qed.

Lemma weight_is_ones_witness :
  readall (Some scenario_read_csv) ["Weight"] rank0 0 scenario_world =
    (inr [[Array1 float64 (replicate (length scenario_file) (of_Z float64 1))]],
     scenario_world)
  /\ len (Array1 float64 (replicate (length scenario_file) (of_Z float64 1)))
     = length scenario_file
  /\ near 0 1 (of_Z float64 1) = true.
Proof.
  apply (weight_is_ones scenario_read_csv scenario_world scenario_file).
  reflexivity.
Defined.

(** C9: set up, read; then set up again with the same parameters (the same
    path, [scaled], [rsd] and [velf], and a box size of the same content)
    in the state that the first run left, and read the same file for the
    same names: the second read returns exactly what the first returned. *)
Theorem reconfigure_same_output
    (pandas : option (string -> exn + DataFrame)) (args args' : Namespace)
    (w0 : world) (b : vec3) (columns : list string) (comm : Comm) (bunchsize : nat) :
  heap w0 !! args_BoxSize args = Some b ->
  let w1 := snd (initialize args w0) in
  let r1 := readall pandas columns comm bunchsize w1 in
  args_path args' = args_path args ->
  args_scaled args' = args_scaled args ->
  args_rsd args' = args_rsd args ->
  args_velf args' = args_velf args ->
  heap (snd r1) !! args_BoxSize args' = Some b ->
  let w2 := snd (initialize args' (snd r1)) in
  fst (readall pandas columns comm bunchsize w2) = fst r1.
Proof.
  intros Hb w1 r1 Hp Hs Hr Hv Hb' w2. subst r1 w2.
  rewrite readall_frame in *. subst w1.
  rewrite (initialize_eq _ _ _ Hb) in *. cbn [snd] in *.
  rewrite (initialize_eq _ _ _ Hb'). cbn [snd].
  apply readall_determined; cbn [self heap path scaled rsd velf _BoxSize0];
    try assumption.
  pose proof (lookup_lt_Some _ _ _ Hb) as Hlt.
  pose proof (lookup_lt_Some _ _ _ Hb') as Hlt'. cbn [heap] in Hlt'.
  rewrite length_insert in Hlt'.
  rewrite length_app in Hlt'. cbn [length] in Hlt'.
  transitivity b; [|symmetry]; apply list_lookup_total_correct.
  - rewrite list_lookup_insert_ne
      by (rewrite length_insert, length_app; cbn [length]; lia).
    apply list_lookup_middle. reflexivity.
  - rewrite list_lookup_insert_ne by lia.
    apply list_lookup_middle. reflexivity.
Qed.

Lemma reconfigure_same_output_witness :
  fst (readall (Some scenario_read_csv) ["Position"; "Velocity"; "Weight"] rank0 0
         (snd (initialize scenario_args'
                 (snd (readall (Some scenario_read_csv)
                         ["Position"; "Velocity"; "Weight"] rank0 0
                         (snd (initialize scenario_args two_boxes)))))))
  = fst (readall (Some scenario_read_csv) ["Position"; "Velocity"; "Weight"] rank0 0
           (snd (initialize scenario_args two_boxes))).
Proof.
  apply (reconfigure_same_output (Some scenario_read_csv) scenario_args scenario_args'
           two_boxes (V3 (f8 10) (f8 10) (f8 10))); reflexivity.
Defined.

(** Set-up scales the array it was given, in place: a second set-up from
    the very same arguments object starts from the scaled box size and
    captures that. *)
Example reconfigure_same_object :
  let w1 := snd (initialize scenario_args scenario_start) in
  let w2 := snd (initialize scenario_args w1) in
  heap w1 !! _BoxSize0 (self w1) = Some (V3 (f8 10) (f8 10) (f8 10))
  /\ heap w2 !! _BoxSize0 (self w2) = heap w1 !! BoxSize (self w1)
  /\ heap w2 !! _BoxSize0 (self w2) <> Some (V3 (f8 10) (f8 10) (f8 10)).
Proof. vm_compute. repeat split. discriminate. Qed.

(** C2: set-up leaves the working box size equal to the original one when
    [scaled] is off and, when it is on, equal to the original one multiplied
    axis by axis by [qpar] on the [rsd] axis and by [qperp] on the other two
    (by [qperp] on all three without [rsd]); the captured original holds the
    box size as it was passed; and no later operation changes the captured
    array: no read, and no further set-up (which captures a new copy),
    unless the captured array itself is passed back as the box size. *)
Theorem box_size_invariant
    (args : Namespace) (w0 : world) (b : vec3) :
  heap w0 !! args_BoxSize args = Some b ->
  let w := snd (initialize args w0) in
  heap w !! BoxSize (self w) =
    Some (if args_scaled args
          then V3 (multiply float64 (c0 b) (Spec.ap_factor (args_rsd args) 0))
                  (multiply float64 (c1 b) (Spec.ap_factor (args_rsd args) 1))
                  (multiply float64 (c2 b) (Spec.ap_factor (args_rsd args) 2))
          else b)
  /\ heap w !! _BoxSize0 (self w) = Some b
  /\ (forall pandas ops,
        Forall (fun op => forall a, op = Configure a ->
                                    args_BoxSize a <> _BoxSize0 (self w)) ops ->
        heap (perform_all pandas ops w) !! _BoxSize0 (self w) = Some b).
Proof.
  intros Hb w. pose proof (lookup_lt_Some _ _ _ Hb) as Hlt.
  assert (H0 : heap w !! _BoxSize0 (self w) = Some b).
  { subst w. rewrite (initialize_eq _ _ _ Hb). cbn [snd self heap _BoxSize0].
    rewrite list_lookup_insert_ne by lia. now apply list_lookup_middle. }
  split; [|split].
  - subst w. rewrite (initialize_eq _ _ _ Hb). cbn [snd self heap BoxSize].
    apply list_lookup_insert_eq. rewrite length_app. lia.
  - exact H0.
  - intros pandas ops Hops. now apply perform_all_preserves.
Qed.

Lemma box_size_invariant_witness :
  let w := snd (initialize scenario_args scenario_start) in
  heap w !! BoxSize (self w) =
    Some (if args_scaled scenario_args
          then V3 (multiply float64 (f8 10) (Spec.ap_factor (args_rsd scenario_args) 0))
                  (multiply float64 (f8 10) (Spec.ap_factor (args_rsd scenario_args) 1))
                  (multiply float64 (f8 10) (Spec.ap_factor (args_rsd scenario_args) 2))
          else V3 (f8 10) (f8 10) (f8 10))
  /\ heap w !! _BoxSize0 (self w) = Some (V3 (f8 10) (f8 10) (f8 10))
  /\ (forall pandas ops,
        Forall (fun op => forall a, op = Configure a ->
                                    args_BoxSize a <> _BoxSize0 (self w)) ops ->
        heap (perform_all pandas ops w) !! _BoxSize0 (self w)
        = Some (V3 (f8 10) (f8 10) (f8 10))).
Proof.
  apply (box_size_invariant scenario_args scenario_start (V3 (f8 10) (f8 10) (f8 10))).
  reflexivity.
Defined.

(** C1, at the edge: a particle at the origin with the velocity [-1e-7]
    along [x], in a box of size 10, unscaled, [rsd = x], [velf = 1].  The
    sum is [-1e-7]; its remainder modulo 10 is [-1e-7 + 10], which single
    precision rounds to 10: the position handed out is the box length
    itself, which is not below the box length. *)
Theorem wrap_reaches_box_length :
  readall (Some edge_read_csv) ["Position"] rank0 0 edge_world =
    (inr [[Array2 float32 [V3 (of_Z float32 10) zero zero]]], edge_world)
  /\ heap edge_world !! _BoxSize0 (self edge_world) = Some (V3 (f8 10) (f8 10) (f8 10))
  /\ SFltb (of_Z float32 10) (f8 10) = false
  /\ near 0 10 (of_Z float32 10) = true.
Proof. vm_compute. repeat split. Qed.

(** C3, as stated: the positions of the scenario would be the decimals of
    the specification.  They are single precision numbers, and no such
    number equals 4.962528399. *)
Lemma scenario_positions_are_rounded :
  ~ (exists p1 p2 vel wt,
       fst (readall (Some scenario_read_csv) ["Position"; "Velocity"; "Weight"]
              rank0 0 scenario_world)
         = inr [[Array2 float32 [p1; p2]; vel; wt]]
       /\ vnear 0 (dec 19702419286 10) 0 0 p1 = true
       /\ vnear 0 (dec 49256048215 10) (dec 4962528399 9) (dec 4962528399 9) p2 = true).
Proof.
  intros (p1 & p2 & vel & wt & Hout & _ & H2). vm_compute in Hout.
  injection Hout as <- <- <- <-. vm_compute in H2. discriminate H2.
Qed.

(** C3, amended: in the scenario the working box size is
    (9.851209643, 9.925056798, 9.925056798) to within 1e-14 (double
    precision); record 1 gets the velocity (2, 0, 0) exactly and a position
    within 2.5e-7 (single precision) of (1.9702419286, 0, 0); record 2 gets
    the velocity (0, 2, 0) exactly and a position within 2.5e-7 of
    (4.9256048215, 4.962528399, 4.962528399); both weights are exactly 1. *)
Theorem scenario_up_to_rounding :
  exists L p1 p2 v1 v2 w1 w2,
    heap scenario_world !! BoxSize (self scenario_world) = Some L
    /\ readall (Some scenario_read_csv) ["Position"; "Velocity"; "Weight"]
         rank0 0 scenario_world
       = (inr [[Array2 float32 [p1; p2]; Array2 float32 [v1; v2];
                Array1 float64 [w1; w2]]], scenario_world)
    /\ vnear (dec 1 14) (dec 9851209643 9) (dec 9925056798 9) (dec 9925056798 9) L = true
    /\ vnear 0 2 0 0 v1 = true
    /\ vnear (dec 25 8) (dec 19702419286 10) 0 0 p1 = true
    /\ vnear 0 0 2 0 v2 = true
    /\ vnear (dec 25 8) (dec 49256048215 10) (dec 4962528399 9) (dec 4962528399 9) p2 = true
    /\ near 0 1 w1 = true /\ near 0 1 w2 = true.
Proof.
  do 7 eexists. split; [vm_compute; reflexivity|].
  split; [vm_compute; reflexivity|].
  vm_compute. repeat split.
Qed.

(** * Further properties of the two methods *)

(** ** Errors of a read *)

(** X1: what [read_csv] raises is what the read raises: the method has no
    handler around the call.  Nothing is yielded, the state is as before,
    and the exception comes before any look at the requested names, so that
    an unknown name goes unnoticed when the file cannot be read. *)
Theorem read_failure_propagates
    (pd : string -> exn + DataFrame) (e : exn) (columns : list string)
    (comm : Comm) (bunchsize : nat) (w : world) :
  pd (path (self w)) = inl e ->
  readall (Some pd) columns comm bunchsize w = (inl e, w).
Proof.
  intros Hread. unfold readall, import_pandas, read_csv. run. now rewrite Hread.
Qed.

Lemma read_failure_propagates_witness :
  readall (Some missing_read_csv) ["Position"; "Mass"] rank0 0 scenario_world
  = (inl (ReadError "File qpm.dat does not exist"), scenario_world).
Proof.
  apply (read_failure_propagates missing_read_csv). reflexivity.
Defined.

(** X2: a read that succeeds yields exactly one batch, whatever the bunch
    size, and the batch holds one array per requested name. *)
Theorem one_batch_per_read
    (pandas : option (string -> exn + DataFrame)) (columns : list string)
    (comm : Comm) (bunchsize : nat) (w w' : world) (out : list (list ndarray)) :
  readall pandas columns comm bunchsize w = (inr out, w') ->
  exists batch, out = [batch] /\ length batch = length columns.
Proof.
  intros Hout. destruct pandas as [pd|]; [|discriminate Hout].
  destruct (pd (path (self w))) as [e|data] eqn:Hread.
  - rewrite (readall_read_error _ _ _ _ _ _ Hread) in Hout. discriminate Hout.
  - rewrite (readall_columns _ _ _ _ _ _ Hread) in Hout.
    destruct (first_unsupported columns); [discriminate Hout|].
    injection Hout as <- _. eexists. split; [reflexivity|]. apply length_map.
Qed.

Lemma one_batch_per_read_witness :
  exists batch,
    [[Array1 float64 (replicate (length scenario_file) (of_Z float64 1))]] = [batch]
    /\ length batch = length ["Weight"].
Proof.
  apply (one_batch_per_read (Some scenario_read_csv) ["Weight"] rank0 7
           scenario_world scenario_world).
  reflexivity.
Defined.

(** ** The shape of what is handed out *)

(** X3: in every configuration the three arrays have as many entries as the
    file has records; Position and Velocity hold single precision numbers,
    Weight doubles. *)
Theorem arrays_have_one_entry_per_record
    (pd : string -> exn + DataFrame) (w : world) (data : DataFrame)
    (comm : Comm) (bunchsize : nat) :
  pd (path (self w)) = inr data ->
  exists pos vel wt,
    readall (Some pd) ["Position"; "Velocity"; "Weight"] comm bunchsize w
      = (inr [[Array2 float32 pos; Array2 float32 vel; Array1 float64 wt]], w)
    /\ length pos = length data
    /\ length vel = length data
    /\ length wt = length data.
Proof.
  intros Hread. rewrite (readall_columns _ _ _ _ _ _ Hread).
  do 3 eexists. split; [reflexivity|].
  unfold raw_position, raw_velocity, values_f4.
  rewrite length_zip_with, !length_map, length_replicate. lia.
Qed.

Lemma arrays_have_one_entry_per_record_witness :
  exists pos vel wt,
    readall (Some scenario_read_csv) ["Position"; "Velocity"; "Weight"] rank0 0
            scenario_world
      = (inr [[Array2 float32 pos; Array2 float32 vel; Array1 float64 wt]],
         scenario_world)
    /\ length pos = length scenario_file
    /\ length vel = length scenario_file
    /\ length wt = length scenario_file.
Proof.
  apply (arrays_have_one_entry_per_record scenario_read_csv scenario_world
           scenario_file).
  reflexivity.
Defined.

(** X4: a file without records is read without error in every
    configuration: the batch holds three empty arrays. *)
Theorem empty_file
    (pd : string -> exn + DataFrame) (w : world) (comm : Comm) (bunchsize : nat) :
  pd (path (self w)) = inr [] ->
  readall (Some pd) ["Position"; "Velocity"; "Weight"] comm bunchsize w
    = (inr [[Array2 float32 []; Array2 float32 []; Array1 float64 []]], w).
Proof.
  intros Hread. now rewrite (readall_columns _ _ _ _ _ _ Hread).
Qed.

Lemma empty_file_witness :
  readall (Some empty_read_csv) ["Position"; "Velocity"; "Weight"] rank0 0
          scenario_world
    = (inr [[Array2 float32 []; Array2 float32 []; Array1 float64 []]],
       scenario_world).
Proof.
  apply (empty_file empty_read_csv). reflexivity.
Defined.

(** ** What moves a particle *)

Lemma position_off_axis (s : QPMMockDataSource) (L0 p v : vec3) (a : axis) (j : nat) :
  rsd s = Some a -> j < 3 -> j <> index a ->
  getitem (Spec.position s L0 p v) j =
    if scaled s then multiply float32 (getitem p j) (astype float32 qperp)
    else getitem p j.
Proof.
  intros Hr Hj Hne. unfold Spec.position. rewrite Hr.
  destruct j as [|[|[|j]]]; [| | |lia];
    destruct a; cbn [index] in Hne; try congruence;
    destruct (scaled s), p, v; reflexivity.
Qed.

(** X5: in redshift space only the component along the [rsd] axis is moved:
    on the other two axes the position handed out is the position read,
    multiplied by [qperp] when [scaled] and untouched otherwise, whatever
    the velocity, [velf] and the box size are. *)
Theorem redshift_moves_one_axis
    (pd : string -> exn + DataFrame) (w : world) (data : DataFrame) (a : axis)
    (comm : Comm) (bunchsize : nat) :
  rsd (self w) = Some a ->
  pd (path (self w)) = inr data ->
  exists pos,
    readall (Some pd) ["Position"] comm bunchsize w
      = (inr [[Array2 float32 pos]], w)
    /\ forall (k j : nat) (p p0 : vec3),
         pos !! k = Some p -> raw_position data !! k = Some p0 ->
         j < 3 -> j <> index a ->
         getitem p j =
           if scaled (self w)
           then multiply float32 (getitem p0 j) (astype float32 qperp)
           else getitem p0 j.
Proof.
  intros Hr Hread. rewrite (readall_columns _ _ _ _ _ _ Hread).
  eexists. split; [reflexivity|].
  intros k j p p0 Hp Hp0 Hj Hne.
  apply lookup_zip_with_Some in Hp as (p0' & v0 & -> & Hp0' & _).
  rewrite Hp0' in Hp0. injection Hp0 as ->.
  now apply position_off_axis with a.
Qed.

Lemma redshift_moves_one_axis_witness :
  exists pos,
    readall (Some scenario_read_csv) ["Position"] rank0 0 scenario_world
      = (inr [[Array2 float32 pos]], scenario_world)
    /\ forall (k j : nat) (p p0 : vec3),
         pos !! k = Some p -> raw_position scenario_file !! k = Some p0 ->
         j < 3 -> j <> index x ->
         getitem p j =
           if scaled (self scenario_world)
           then multiply float32 (getitem p0 j) (astype float32 qperp)
           else getitem p0 j.
Proof.
  apply (redshift_moves_one_axis scenario_read_csv scenario_world scenario_file x);
    reflexivity.
Defined.

(** X6: in real space with [scaled] on, every component of every position
    is the one read multiplied by [qperp]: the rescaling is isotropic, and
    neither the velocity nor the box size enters the position. *)
Theorem real_space_scaling_is_isotropic
    (pd : string -> exn + DataFrame) (w : world) (data : DataFrame)
    (comm : Comm) (bunchsize : nat) :
  rsd (self w) = None ->
  scaled (self w) = true ->
  pd (path (self w)) = inr data ->
  readall (Some pd) ["Position"] comm bunchsize w =
    (inr [[Array2 float32
             (map (vmap (fun c => multiply float32 c (astype float32 qperp)))
                  (raw_position data))]], w).
Proof.
  intros Hr Hs Hread. rewrite (readall_columns _ _ _ _ _ _ Hread).
  cbn [first_unsupported List.find map field String.eqb Ascii.eqb Bool.eqb negb].
  unfold Position_of, Spec.position. rewrite Hs, Hr.
  cbn [Spec.rescale Spec.redshift Spec.ap_factor]. rewrite raw_zip.
  unfold raw_position, values_f4. rewrite map_map. reflexivity.
Qed.

Lemma real_space_scaling_is_isotropic_witness :
  readall (Some scenario_read_csv) ["Position"] rank0 0 iso_world =
    (inr [[Array2 float32
             (map (vmap (fun c => multiply float32 c (astype float32 qperp)))
                  (raw_position scenario_file))]], iso_world).
Proof.
  apply (real_space_scaling_is_isotropic scenario_read_csv iso_world scenario_file);
    reflexivity.
Defined.

(** X7: a read never looks at the working box size: overwriting the array
    that [BoxSize] points to, which is not the captured one, changes nothing
    in what the read returns or raises. *)
Theorem read_ignores_working_box
    (pandas : option (string -> exn + DataFrame)) (columns : list string)
    (comm : Comm) (bunchsize : nat) (w : world) (v : vec3) :
  BoxSize (self w) <> _BoxSize0 (self w) ->
  fst (readall pandas columns comm bunchsize
         {| self := self w; heap := <[BoxSize (self w) := v]> (heap w) |})
  = fst (readall pandas columns comm bunchsize w).
Proof.
  intros Hne. apply readall_determined; cbn [self heap]; try reflexivity.
  now apply list_lookup_total_insert_ne.
Qed.

Lemma read_ignores_working_box_witness :
  fst (readall (Some scenario_read_csv) ["Position"] rank0 0
         {| self := self scenario_world;
            heap := <[BoxSize (self scenario_world) := V3 zero zero zero]>
                      (heap scenario_world) |})
  = fst (readall (Some scenario_read_csv) ["Position"] rank0 0 scenario_world).
Proof.
  apply (read_ignores_working_box (Some scenario_read_csv) ["Position"] rank0 0
           scenario_world (V3 zero zero zero)).
  discriminate.
Defined.

(** ** What set-up does to the store *)

(** X8: set-up does not raise; it adds exactly one array to the store, the
    copy that [_BoxSize0] points to, so that [BoxSize] and [_BoxSize0] are
    never the same array; and of the arrays that were there it may change
    only the one passed as box size. *)
Theorem initialize_allocates_the_copy
    (args : Namespace) (w0 : world) (b : vec3) :
  heap w0 !! args_BoxSize args = Some b ->
  fst (initialize args w0) = inr tt
  /\ length (heap (snd (initialize args w0))) = S (length (heap w0))
  /\ _BoxSize0 (self (snd (initialize args w0))) = length (heap w0)
  /\ BoxSize (self (snd (initialize args w0))) = args_BoxSize args
  /\ BoxSize (self (snd (initialize args w0)))
     <> _BoxSize0 (self (snd (initialize args w0)))
  /\ (forall l : nat, l <> args_BoxSize args -> l < length (heap w0) ->
        heap (snd (initialize args w0)) !! l = heap w0 !! l).
Proof.
  intros Hb. pose proof (lookup_lt_Some _ _ _ Hb) as Hlt.
  split; [now rewrite (initialize_eq _ _ _ Hb)|].
  split; [|split; [|split; [|split]]].
  - rewrite (initialize_eq _ _ _ Hb). cbn [snd heap].
    rewrite length_insert, length_app. cbn [length]. lia.
  - now rewrite (initialize_eq _ _ _ Hb).
  - now rewrite (initialize_eq _ _ _ Hb).
  - rewrite (initialize_eq _ _ _ Hb). cbn [snd self BoxSize _BoxSize0]. lia.
  - intros l Hne Hl. now apply initialize_heap_other.
Qed.

Lemma initialize_allocates_the_copy_witness :
  fst (initialize scenario_args two_boxes) = inr tt
  /\ length (heap (snd (initialize scenario_args two_boxes))) = S (length (heap two_boxes))
  /\ _BoxSize0 (self (snd (initialize scenario_args two_boxes))) = length (heap two_boxes)
  /\ BoxSize (self (snd (initialize scenario_args two_boxes))) = args_BoxSize scenario_args
  /\ BoxSize (self (snd (initialize scenario_args two_boxes)))
     <> _BoxSize0 (self (snd (initialize scenario_args two_boxes)))
  /\ (forall l : nat, l <> args_BoxSize scenario_args -> l < length (heap two_boxes) ->
        heap (snd (initialize scenario_args two_boxes)) !! l = heap two_boxes !! l).
Proof.
  apply (initialize_allocates_the_copy scenario_args two_boxes (V3 (f8 10) (f8 10) (f8 10))).
  reflexivity.
Defined.

(** X9: the box size is scaled in the array that was passed, so set-up is
    not idempotent on one and the same arguments object: a second set-up
    captures as original the box size that the first one left (the scaled one
    when [scaled] is on) and scales it once more, while the copy captured by
    the first set-up still holds the box size as first passed. *)
Theorem second_setup_starts_from_the_scaled_box
    (args : Namespace) (w0 : world) (b : vec3) :
  heap w0 !! args_BoxSize args = Some b ->
  let w1 := snd (initialize args w0) in
  let w2 := snd (initialize args w1) in
  heap w2 !! _BoxSize0 (self w2)
    = Some (Spec.working_size (args_scaled args) (args_rsd args) b)
  /\ heap w2 !! BoxSize (self w2)
     = Some (Spec.working_size (args_scaled args) (args_rsd args)
               (Spec.working_size (args_scaled args) (args_rsd args) b))
  /\ heap w2 !! _BoxSize0 (self w1) = Some b.
Proof.
  intros Hb w1 w2. pose proof (lookup_lt_Some _ _ _ Hb) as Hlt.
  subst w2 w1. rewrite (initialize_eq _ _ _ Hb). cbn [snd].
  set (b1 := Spec.working_size (args_scaled args) (args_rsd args) b).
  set (h1 := <[args_BoxSize args := b1]> (heap w0 ++ [b])%list).
  assert (Hlen : length h1 = S (length (heap w0))).
  { subst h1. rewrite length_insert, length_app. cbn [length]. lia. }
  assert (Hb1 : h1 !! args_BoxSize args = Some b1).
  { subst h1. apply list_lookup_insert_eq. rewrite length_app. lia. }
  rewrite (initialize_eq args {| self := _; heap := h1 |} b1 Hb1).
  cbn [snd self heap BoxSize _BoxSize0]. split; [|split].
  - rewrite list_lookup_insert_ne by lia. now apply list_lookup_middle.
  - apply list_lookup_insert_eq. rewrite length_app. lia.
  - rewrite list_lookup_insert_ne by lia.
    rewrite lookup_app_l by lia. subst h1.
    rewrite list_lookup_insert_ne by lia. now apply list_lookup_middle.
Qed.

Lemma second_setup_starts_from_the_scaled_box_witness :
  let w1 := snd (initialize scenario_args scenario_start) in
  let w2 := snd (initialize scenario_args w1) in
  heap w2 !! _BoxSize0 (self w2)
    = Some (Spec.working_size (args_scaled scenario_args) (args_rsd scenario_args)
              (V3 (f8 10) (f8 10) (f8 10)))
  /\ heap w2 !! BoxSize (self w2)
     = Some (Spec.working_size (args_scaled scenario_args) (args_rsd scenario_args)
               (Spec.working_size (args_scaled scenario_args) (args_rsd scenario_args)
                  (V3 (f8 10) (f8 10) (f8 10))))
  /\ heap w2 !! _BoxSize0 (self w1) = Some (V3 (f8 10) (f8 10) (f8 10)).
Proof.
  apply (second_setup_starts_from_the_scaled_box scenario_args scenario_start
           (V3 (f8 10) (f8 10) (f8 10))).
  reflexivity.
Defined.

(** ** Rounding

    The results of the arithmetic are numbers of the format, and rounding
    to nearest does not carry a value past a number of the format. *)

Section Rounding.

Local Open Scope Z_scope.

(** *** Iterated halving *)

Lemma iter_pos_comm {A} (f : A -> A) (p : positive) (a : A) :
  SpecFloat.iter_pos f p (f a) = f (SpecFloat.iter_pos f p a).
Proof.
  revert a. induction p as [p IH|p IH|]; intros a; cbn [SpecFloat.iter_pos].
  - now rewrite !IH.
  - now rewrite !IH.
  - reflexivity.
Qed.

Lemma iter_pos_succ {A} (f : A -> A) (p : positive) (a : A) :
  SpecFloat.iter_pos f (Pos.succ p) a = f (SpecFloat.iter_pos f p a).
Proof.
  revert a. induction p as [p IH|p IH|]; intros a.
  - change (Pos.succ p~1) with (Pos.succ p)~0%positive.
    cbn [SpecFloat.iter_pos]. now rewrite !IH, !iter_pos_comm.
  - change (Pos.succ p~0) with p~1%positive.
    cbn [SpecFloat.iter_pos]. now rewrite !iter_pos_comm.
  - reflexivity.
Qed.

Lemma shr_1_m (mrs : shr_record) :
  0 <= shr_m mrs -> shr_m (shr_1 mrs) = shr_m mrs / 2.
Proof.
  destruct mrs as [m r s]. cbn [shr_m shr_1]. intros Hm.
  destruct m as [|[p|p|]|p]; cbn [shr_m]; try lia.
  - reflexivity.
  - rewrite Pos2Z.inj_xI. apply Z.div_unique with 1; lia.
  - rewrite Pos2Z.inj_xO. apply Z.div_unique with 0; lia.
  - reflexivity.
Qed.

Lemma shr_iter_m (k : positive) (mrs : shr_record) :
  0 <= shr_m mrs ->
  shr_m (SpecFloat.iter_pos shr_1 k mrs) = shr_m mrs / 2 ^ Zpos k.
Proof.
  intros Hm. induction k as [|k IH] using Pos.peano_ind.
  - cbn [SpecFloat.iter_pos]. now rewrite shr_1_m.
  - rewrite iter_pos_succ, shr_1_m, IH.
    + rewrite Pos2Z.inj_succ, Z.pow_succ_r, Z.div_div by lia.
      f_equal. lia.
    + rewrite IH. apply Z.div_pos; [lia|]. apply Z.pow_pos_nonneg; lia.
Qed.

Lemma shr_1_even (z : Z) :
  0 <= z ->
  shr_1 {| shr_m := 2 * z; shr_r := false; shr_s := false |}
    = {| shr_m := z; shr_r := false; shr_s := false |}.
Proof. intros Hz. destruct z as [|p|p]; [reflexivity|reflexivity|lia]. Qed.

Lemma shr_iter_exact (k : positive) (z : Z) :
  0 <= z ->
  SpecFloat.iter_pos shr_1 k {| shr_m := z * 2 ^ Zpos k; shr_r := false; shr_s := false |}
    = {| shr_m := z; shr_r := false; shr_s := false |}.
Proof.
  intros Hz. revert z Hz. induction k as [|k IH] using Pos.peano_ind; intros z Hz.
  - cbn [SpecFloat.iter_pos]. replace (z * 2 ^ 1) with (2 * z) by lia. now apply shr_1_even.
  - rewrite iter_pos_succ, <- iter_pos_comm.
    replace (z * 2 ^ Zpos (Pos.succ k)) with (2 * (z * 2 ^ Zpos k)).
    2:{ rewrite Pos2Z.inj_succ, Z.pow_succ_r by lia. lia. }
    rewrite shr_1_even; [now apply IH|].
    apply Z.mul_nonneg_nonneg; [lia|]. apply Z.pow_nonneg. lia.
Qed.

(** *** Digits *)

Lemma digits2_pos_unique (p : positive) (d : Z) :
  2 ^ (d - 1) <= Zpos p < 2 ^ d -> Zpos (digits2_pos p) = d.
Proof.
  intros [Hlo Hhi]. pose proof (digits2_pos_bounds p) as [Hlo' Hhi'].
  assert (H1 : d - 1 < Zpos (digits2_pos p)).
  { apply (Z.pow_lt_mono_r_iff 2); lia. }
  assert (H2 : Zpos (digits2_pos p) - 1 < d).
  { destruct (Z.le_gt_cases d 0) as [Hd|Hd].
    - rewrite Z.pow_neg_r in Hlo by lia.
      destruct (Z.eq_dec d 0) as [->|]; [cbn in Hhi; lia|].
      rewrite Z.pow_neg_r in Hhi by lia. lia.
    - apply (Z.pow_lt_mono_r_iff 2); lia. }
  lia.
Qed.

Lemma div_pow2_bounds (n d k : Z) :
  0 <= k -> k < d -> 2 ^ (d - 1) <= n < 2 ^ d ->
  2 ^ (d - k - 1) <= n / 2 ^ k < 2 ^ (d - k).
Proof.
  intros Hk Hd [Hlo Hhi].
  assert (Hp : 0 < 2 ^ k) by (apply Z.pow_pos_nonneg; lia).
  split.
  - apply Z.div_le_lower_bound; [exact Hp|].
    rewrite <- Z.pow_add_r by lia. replace (k + (d - k - 1)) with (d - 1) by lia.
    exact Hlo.
  - apply Z.div_lt_upper_bound; [exact Hp|].
    rewrite <- Z.pow_add_r by lia. replace (k + (d - k)) with d by lia.
    exact Hhi.
Qed.

Lemma div_pow2_small (n d k : Z) :
  0 <= d -> d <= k -> 0 <= n < 2 ^ d -> n / 2 ^ k = 0.
Proof.
  intros Hd Hk [Hlo Hhi]. apply Z.div_small. split; [exact Hlo|].
  eapply Z.lt_le_trans; [exact Hhi|]. apply Z.pow_le_mono_r; lia.
Qed.

(** *** The two shifts of [binary_round_aux] *)

Lemma shr_fexp_first (prec emax : Z) (n : positive) (e : Z) :
  let e1 := fexp prec emax (Zpos (digits2_pos n) + e) in
  e <= e1 ->
  snd (shr_fexp prec emax (Zpos n) e loc_Exact) = e1
  /\ shr_m (fst (shr_fexp prec emax (Zpos n) e loc_Exact)) = Zpos n / 2 ^ (e1 - e)
  /\ (Zpos n mod 2 ^ (e1 - e) = 0 ->
      fst (shr_fexp prec emax (Zpos n) e loc_Exact)
        = {| shr_m := Zpos n / 2 ^ (e1 - e); shr_r := false; shr_s := false |}).
Proof.
  intros e1 Hle. unfold shr_fexp. cbn [Zdigits2 shr_record_of_loc]. fold e1.
  unfold shr. destruct (e1 - e) as [|k|k] eqn:Hk; [| |lia]; cbn [fst snd shr_m].
  - rewrite Z.pow_0_r, Z.div_1_r. repeat split; lia.
  - split; [lia|]. split; [now rewrite shr_iter_m|].
    intros Hmod. apply Z.div_exact in Hmod; [|apply Z.pow_nonzero; lia].
    rewrite Hmod at 1. rewrite Z.mul_comm. apply shr_iter_exact.
    apply Z.div_pos; [lia|]. apply Z.pow_pos_nonneg; lia.
Qed.

Lemma round_nearest_even_choice (m : Z) (l : location) :
  round_nearest_even m l = m \/ round_nearest_even m l = m + 1.
Proof.
  destruct l as [|[]]; cbn [round_nearest_even]; auto.
  destruct (Z.even m); auto.
Qed.

Lemma shr_fexp_canonical (prec emax : Z) (q : positive) (e : Z) :
  fexp prec emax (Zpos (digits2_pos q) + e) = e ->
  shr_fexp prec emax (Zpos q) e loc_Exact
    = ({| shr_m := Zpos q; shr_r := false; shr_s := false |}, e).
Proof.
  intros Hcan. unfold shr_fexp. cbn [Zdigits2 shr_record_of_loc].
  now rewrite Hcan, Z.sub_diag.
Qed.

Lemma shr_fexp_zero (prec emax e : Z) :
  0 < prec -> emin prec emax <= e ->
  shr_fexp prec emax 0 e loc_Exact
    = ({| shr_m := 0; shr_r := false; shr_s := false |}, e).
Proof.
  intros Hprec He. unfold shr_fexp. cbn [Zdigits2 shr_record_of_loc].
  unfold shr. destruct (fexp prec emax (0 + e) - e) as [|k|k] eqn:Hk; try reflexivity.
  unfold fexp in Hk. lia.
Qed.

Lemma digits2_pos_le_of_lt (q : positive) (d : Z) :
  Zpos q < 2 ^ d -> Zpos (digits2_pos q) <= d.
Proof.
  intros Hq. pose proof (digits2_pos_bounds q) as [Hlo _].
  assert (H : 2 ^ (Zpos (digits2_pos q) - 1) < 2 ^ d) by lia.
  destruct (Z.le_gt_cases d 0) as [Hd|Hd].
  - destruct (Z.eq_dec d 0) as [->|]; [cbn in Hq; lia|].
    rewrite Z.pow_neg_r in Hq by lia. lia.
  - apply Z.pow_lt_mono_r_iff in H; lia.
Qed.

(** What comes out of the second shift, by the size of the rounded
    mantissa. *)
Lemma rounded_mantissa_cases (prec emax : Z) (n : positive) (e m2 : Z) :
  0 < prec -> prec < emax ->
  let e1 := fexp prec emax (Zpos (digits2_pos n) + e) in
  let m1 := Zpos n / 2 ^ (e1 - e) in
  e <= e1 ->
  m2 = m1 \/ m2 = m1 + 1 ->
  0 <= m1
  /\ (m2 = 0
      \/ (0 < m2 < 2 ^ prec
          /\ forall q, m2 = Zpos q -> fexp prec emax (Zpos (digits2_pos q) + e1) = e1)
      \/ (m2 = 2 ^ prec /\ fexp prec emax (prec + 1 + e1) = e1 + 1)).
Proof.
  intros Hprec Hmax e1 m1 Hle Hm2.
  pose proof (digits2_pos_bounds n) as Hn.
  set (d := Zpos (digits2_pos n)) in *.
  assert (Hd : 0 < d) by (subst d; lia).
  assert (Hm1 : 0 <= m1).
  { subst m1. apply Z.div_pos; [lia|]. apply Z.pow_pos_nonneg; lia. }
  split; [exact Hm1|].
  assert (Hemin : emin prec emax <= e1) by (subst e1; unfold fexp; lia).
  assert (Hpp : 2 ^ prec = 2 * 2 ^ (prec - 1)).
  { replace prec with (Z.succ (prec - 1)) at 1 by lia. apply Z.pow_succ_r. lia. }
  assert (Hp1 : 0 < 2 ^ (prec - 1)) by (apply Z.pow_pos_nonneg; lia).
  destruct (Z.le_gt_cases (emin prec emax) (d + e - prec)) as [HN|HS].
  - (* the normal range *)
    assert (He1 : e1 = d + e - prec) by (subst e1; unfold fexp; lia).
    assert (Hb : 2 ^ (prec - 1) <= m1 < 2 ^ prec).
    { subst m1.
      pose proof (div_pow2_bounds (Zpos n) d (e1 - e) ltac:(lia) ltac:(lia) Hn) as Hq.
      replace (d - (e1 - e) - 1) with (prec - 1) in Hq by lia.
      replace (d - (e1 - e)) with prec in Hq by lia. exact Hq. }
    destruct (Z.eq_dec m2 (2 ^ prec)) as [Hc|Hc].
    + right. right. split; [exact Hc|]. unfold fexp. lia.
    + right. left. split; [lia|]. intros q Hq.
      rewrite (digits2_pos_unique q prec) by lia. unfold fexp. lia.
  - (* the subnormal range *)
    assert (He1 : e1 = emin prec emax) by (subst e1; unfold fexp; lia).
    assert (Hb : m1 < 2 ^ (prec - 1)).
    { subst m1. destruct (Z.le_gt_cases d (e1 - e)) as [Hk|Hk].
      - rewrite (div_pow2_small (Zpos n) d) by lia. exact Hp1.
      - eapply Z.lt_le_trans.
        + apply (div_pow2_bounds (Zpos n) d (e1 - e)); lia.
        + apply Z.pow_le_mono_r; lia. }
    destruct (Z.eq_dec m2 0) as [Hz|Hz]; [now left|].
    right. left. split; [lia|]. intros q Hq.
    assert (Hdq : Zpos (digits2_pos q) <= prec).
    { apply digits2_pos_le_of_lt. lia. }
    rewrite He1. unfold fexp. lia.
Qed.

(** The result of rounding [n * 2^e] when no left shift is needed: the
    mantissa is [n] divided by the power of two that brings it to the
    canonical exponent [e1], or that quotient plus one; the result is zero, a
    canonical number of that value, or an infinity. *)
Lemma binary_round_aux_cases (prec emax : Z) (s : bool) (n : positive) (e : Z) :
  0 < prec -> prec < emax ->
  let e1 := fexp prec emax (Zpos (digits2_pos n) + e) in
  let m1 := Zpos n / 2 ^ (e1 - e) in
  e <= e1 ->
  exists m2,
    (m2 = m1 \/ m2 = m1 + 1)
    /\ (Zpos n mod 2 ^ (e1 - e) = 0 -> m2 = m1)
    /\ ((m2 = 0 /\ binary_round_aux prec emax s (Zpos n) e loc_Exact = S754_zero s)
        \/ (exists m' e',
              Zpos m' * 2 ^ (e' - e1) = m2 /\ e1 <= e'
              /\ fexp prec emax (Zpos (digits2_pos m') + e') = e'
              /\ binary_round_aux prec emax s (Zpos n) e loc_Exact
                 = if e' <=? emax - prec then S754_finite s m' e'
                   else S754_infinity s)).
Proof.
  intros Hprec Hmax e1 m1 Hle.
  destruct (shr_fexp_first prec emax n e Hle) as (Hsnd & Hm & Hexact).
  fold e1 in Hsnd, Hm, Hexact. fold m1 in Hm, Hexact.
  unfold binary_round_aux.
  destruct (shr_fexp prec emax (Zpos n) e loc_Exact) as [mrs1 e1'] eqn:H1.
  cbn [fst snd] in Hsnd, Hm, Hexact. subst e1'.
  set (m2 := round_nearest_even (shr_m mrs1) (loc_of_shr_record mrs1)).
  assert (Hm2 : m2 = m1 \/ m2 = m1 + 1).
  { subst m2. rewrite <- Hm. apply round_nearest_even_choice. }
  exists m2. split; [exact Hm2|]. split.
  { intros Hmod. subst m2. rewrite (Hexact Hmod). reflexivity. }
  destruct (rounded_mantissa_cases prec emax n e m2 Hprec Hmax Hle Hm2)
    as (Hm1 & [Hz | [(Hb & Hcan) | (Hc & Hcan)]]); try fold e1 in Hcan.
  - left. split; [exact Hz|]. rewrite Hz.
    rewrite shr_fexp_zero; [reflexivity|exact Hprec|].
    subst e1. unfold fexp. lia.
  - right. destruct m2 as [|q|q] eqn:Hq; [lia| |lia].
    exists q, e1. rewrite Z.sub_diag, Z.mul_1_r.
    split; [reflexivity|]. split; [lia|]. split; [now apply Hcan|].
    rewrite shr_fexp_canonical by now apply Hcan. reflexivity.
  - right.
    assert (Hpp : 2 ^ prec = 2 * 2 ^ (prec - 1)).
    { replace prec with (Z.succ (prec - 1)) at 1 by lia. apply Z.pow_succ_r. lia. }
    assert (Hp1 : 0 < 2 ^ (prec - 1)) by (apply Z.pow_pos_nonneg; lia).
    destruct (2 ^ (prec - 1)) as [|h|h] eqn:Hh; [lia| |lia].
    exists h, (e1 + 1).
    assert (Hdh : Zpos (digits2_pos h) = prec).
    { apply digits2_pos_unique. rewrite <- Hh. split; [lia|].
      apply Z.pow_lt_mono_r; lia. }
    split; [rewrite Hc, Hpp; replace (e1 + 1 - e1) with 1 by lia; lia|].
    split; [lia|]. split.
    { rewrite Hdh. replace (prec + (e1 + 1)) with (prec + 1 + e1) by lia. exact Hcan. }
    rewrite Hc, Hpp. unfold shr_fexp.
    assert (Hd2 : Zdigits2 (2 * Zpos h) = prec + 1).
    { change (2 * Zpos h) with (Zpos (xO h)). cbn [Zdigits2 digits2_pos].
      rewrite Pos2Z.inj_succ. lia. }
    rewrite Hd2, Hcan. replace (e1 + 1 - e1) with 1 by lia.
    cbn [shr_record_of_loc shr SpecFloat.iter_pos].
    rewrite shr_1_even by lia. reflexivity.
Qed.

(** *** Order of canonical numbers *)

Lemma canonical_normal (prec emax : Z) (m : positive) (e : Z) :
  fexp prec emax (Zpos (digits2_pos m) + e) = e ->
  emin prec emax < e ->
  Zpos (digits2_pos m) = prec.
Proof. unfold fexp. lia. Qed.

(** Of two canonical numbers, the one with the larger exponent is the
    larger. *)
Lemma canonical_exponent_lt (prec emax : Z) (m1 m2 : positive) (e1 e2 : Z) :
  0 < prec ->
  fexp prec emax (Zpos (digits2_pos m1) + e1) = e1 ->
  fexp prec emax (Zpos (digits2_pos m2) + e2) = e2 ->
  e2 < e1 ->
  Zpos m2 * 2 ^ (e2 - emin prec emax) < Zpos m1 * 2 ^ (e1 - emin prec emax).
Proof.
  intros Hprec H1 H2 Hgt.
  destruct (canonical_bounds _ _ _ _ H1) as [He1 Hd1].
  destruct (canonical_bounds _ _ _ _ H2) as [He2 Hd2].
  assert (Hn : Zpos (digits2_pos m1) = prec) by (apply (canonical_normal prec emax m1 e1); lia).
  pose proof (digits2_pos_bounds m1) as [Hm1 _]. rewrite Hn in Hm1.
  pose proof (digits2_pos_bounds m2) as [_ Hm2].
  assert (Hm2' : Zpos m2 < 2 ^ prec).
  { eapply Z.lt_le_trans; [exact Hm2|]. apply Z.pow_le_mono_r; lia. }
  replace (e1 - emin prec emax) with ((e1 - e2 - 1) + 1 + (e2 - emin prec emax)) by lia.
  rewrite !Z.pow_add_r by lia.
  assert (Hp : 0 < 2 ^ (e2 - emin prec emax)) by (apply Z.pow_pos_nonneg; lia).
  assert (Hq : 1 <= 2 ^ (e1 - e2 - 1)) by (apply Z.lt_pred_le, Z.pow_pos_nonneg; lia).
  assert (Hr : 2 ^ prec = 2 * 2 ^ (prec - 1)).
  { replace prec with (Z.succ (prec - 1)) at 1 by lia. apply Z.pow_succ_r. lia. }
  change (2 ^ 1) with 2. rewrite Z.mul_assoc.
  apply Z.mul_lt_mono_pos_r; [exact Hp|].
  assert (Hs : Zpos m1 * 2 <= Zpos m1 * (2 ^ (e1 - e2 - 1) * 2)).
  { apply Z.mul_le_mono_nonneg_l; lia. }
  lia.
Qed.

Lemma SFleb_canonical (prec emax : Z) (m1 m2 : positive) (e1 e2 : Z) :
  0 < prec ->
  fexp prec emax (Zpos (digits2_pos m1) + e1) = e1 ->
  fexp prec emax (Zpos (digits2_pos m2) + e2) = e2 ->
  Zpos m1 * 2 ^ (e1 - emin prec emax) <= Zpos m2 * 2 ^ (e2 - emin prec emax) ->
  e1 <= e2
  /\ SFleb (S754_finite false m1 e1) (S754_finite false m2 e2) = true.
Proof.
  intros Hprec H1 H2 Hle.
  assert (He : e1 <= e2).
  { destruct (Z.le_gt_cases e1 e2) as [|Hgt]; [assumption|].
    pose proof (canonical_exponent_lt prec emax m1 m2 e1 e2 Hprec H1 H2 Hgt). lia. }
  split; [exact He|]. unfold SFleb, SFcompare.
  destruct (Z.compare_spec e1 e2) as [Heq|Hlt|Hgt]; [|reflexivity|lia].
  subst e2. destruct (canonical_bounds _ _ _ _ H1) as [He1 _].
  apply Z.mul_le_mono_pos_r in Hle; [|apply Z.pow_pos_nonneg; lia].
  change (Pos.compare_cont Eq m1 m2) with (Pos.compare m1 m2).
  apply Pos.compare_le_iff in Hle.
  destruct (Pos.compare m1 m2); [reflexivity|reflexivity|contradiction].
Qed.

Lemma canonical_unique (prec emax : Z) (m1 m2 : positive) (e1 e2 : Z) :
  0 < prec ->
  fexp prec emax (Zpos (digits2_pos m1) + e1) = e1 ->
  fexp prec emax (Zpos (digits2_pos m2) + e2) = e2 ->
  Zpos m1 * 2 ^ (e1 - emin prec emax) = Zpos m2 * 2 ^ (e2 - emin prec emax) ->
  m1 = m2 /\ e1 = e2.
Proof.
  intros Hprec H1 H2 Heq.
  assert (He : e1 = e2).
  { destruct (Z.lt_trichotomy e1 e2) as [Hlt|[|Hgt]]; [|assumption|].
    - pose proof (canonical_exponent_lt prec emax m2 m1 e2 e1 Hprec H2 H1 Hlt). lia.
    - pose proof (canonical_exponent_lt prec emax m1 m2 e1 e2 Hprec H1 H2 Hgt). lia. }
  split; [|exact He]. subst e2.
  destruct (canonical_bounds _ _ _ _ H1) as [He1 _].
  apply Z.mul_cancel_r in Heq; [congruence|].
  apply Z.pow_nonzero; lia.
Qed.

Lemma SFltb_SFleb (a b : spec_float) : SFltb a b = true -> SFleb a b = true.
Proof. unfold SFltb, SFleb. destruct (SFcompare a b) as [[]|]; congruence. Qed.

(** *** Every result is a number of the format *)

Lemma binary_round_aux_valid (prec emax : Z) (s : bool) (n : positive) (e : Z) :
  0 < prec -> prec < emax ->
  e <= fexp prec emax (Zpos (digits2_pos n) + e) ->
  valid_binary prec emax (binary_round_aux prec emax s (Zpos n) e loc_Exact) = true.
Proof.
  intros Hprec Hmax Hle.
  destruct (binary_round_aux_cases prec emax s n e Hprec Hmax Hle)
    as (m2 & _ & _ & [(_ & ->) | (m' & e' & _ & _ & Hcan & ->)]); [reflexivity|].
  destruct (Z.leb_spec e' (emax - prec)) as [Hb|Hb]; [|reflexivity].
  cbn [valid_binary]. unfold bounded, canonical_mantissa.
  apply andb_true_iff. split; [now apply Z.eqb_eq|now apply Z.leb_le].
Qed.

(** The alignment that [binary_round] starts with. *)
Lemma shl_align_fexp (prec emax : Z) (m : positive) (e : Z) :
  let e1 := fexp prec emax (Zpos (digits2_pos m) + e) in
  let mz := fst (shl_align m e e1) in
  let ez := snd (shl_align m e e1) in
  Zpos (digits2_pos mz) + ez = Zpos (digits2_pos m) + e
  /\ ez = Z.min e e1
  /\ Zpos mz = Zpos m * 2 ^ (e - ez).
Proof.
  intros e1 mz ez. subst mz ez. unfold shl_align.
  destruct (e1 - e) as [|d|d] eqn:Hd; cbn [fst snd].
  - rewrite Z.sub_diag, Z.pow_0_r. lia.
  - rewrite Z.sub_diag, Z.pow_0_r. lia.
  - rewrite iter_xO_digits, iter_xO_value.
    replace (e - e1) with (Zpos d) by lia. lia.
Qed.

Lemma binary_round_valid (prec emax : Z) (s : bool) (m : positive) (e : Z) :
  0 < prec -> prec < emax ->
  valid_binary prec emax (binary_round prec emax s m e) = true.
Proof.
  intros Hprec Hmax. unfold binary_round.
  destruct (shl_align_fexp prec emax m e) as (Hdig & Hez & _).
  destruct (shl_align m e _) as [mz ez]. cbn [fst snd] in *.
  apply binary_round_aux_valid; [exact Hprec|exact Hmax|].
  rewrite Hdig. lia.
Qed.

Lemma binary_normalize_valid (prec emax : Z) (z e : Z) (s : bool) :
  0 < prec -> prec < emax ->
  valid_binary prec emax (binary_normalize prec emax z e s) = true.
Proof.
  intros Hprec Hmax. destruct z; cbn [binary_normalize];
    [reflexivity|now apply binary_round_valid|now apply binary_round_valid].
Qed.

(** *** Rounding does not pass a number of the format

    A positive value that is not above a number [b] of the format is rounded
    to a number that is not above [b] either, and not below zero. *)

Lemma binary_round_le (prec emax : Z) (N mb : positive) (e eb : Z) :
  0 < prec -> prec < emax ->
  emin prec emax <= e -> e <= eb ->
  fexp prec emax (Zpos (digits2_pos mb) + eb) = eb ->
  eb <= emax - prec ->
  Zpos N <= Zpos mb * 2 ^ (eb - e) ->
  SFleb (S754_zero false) (binary_round prec emax false N e) = true
  /\ SFleb (binary_round prec emax false N e) (S754_finite false mb eb) = true.
Proof.
  intros Hprec Hmax He Heb Hcb Hbb HN. unfold binary_round.
  destruct (shl_align_fexp prec emax N e) as (Hdig & Hez & Hmz).
  set (e1 := fexp prec emax (Zpos (digits2_pos N) + e)) in *.
  destruct (shl_align N e e1) as [mz ez]. cbn [fst snd] in *.
  assert (He1 : emin prec emax <= e1) by (subst e1; unfold fexp; lia).
  assert (Hle1 : e1 <= eb).
  { assert (HdN : Zpos (digits2_pos N) <= Zpos (digits2_pos mb) + (eb - e)).
    { apply digits2_pos_le_of_lt. eapply Z.le_lt_trans; [exact HN|].
      rewrite Z.pow_add_r by lia.
      apply Z.mul_lt_mono_pos_r; [apply Z.pow_pos_nonneg; lia|].
      apply digits2_pos_bounds. }
    subst e1. unfold fexp in *. lia. }
  assert (Hle : ez <= fexp prec emax (Zpos (digits2_pos mz) + ez)).
  { rewrite Hdig. fold e1. lia. }
  destruct (binary_round_aux_cases prec emax false mz ez Hprec Hmax Hle)
    as (m2 & Hm2 & Hexact & Hres).
  rewrite Hdig in Hm2, Hexact, Hres. fold e1 in Hm2, Hexact, Hres.
  set (k := e1 - ez) in *.
  assert (Hk : 0 <= k) by (subst k; lia).
  assert (Hpk : 0 < 2 ^ k) by (apply Z.pow_pos_nonneg; lia).
  set (Q := Zpos mb * 2 ^ (eb - e1)).
  assert (HmzQ : Zpos mz <= Q * 2 ^ k).
  { rewrite Hmz. subst Q k. rewrite <- Z.mul_assoc, <- Z.pow_add_r by lia.
    replace (eb - e1 + (e1 - ez)) with ((eb - e) + (e - ez)) by lia.
    rewrite Z.pow_add_r, Z.mul_assoc by lia.
    apply Z.mul_le_mono_nonneg_r; [apply Z.pow_nonneg; lia|exact HN]. }
  assert (HQ : m2 <= Q).
  { destruct (Z.eq_dec (Zpos mz mod 2 ^ k) 0) as [Hmod|Hmod].
    - rewrite (Hexact Hmod). apply Z.div_le_upper_bound; [exact Hpk|]. lia.
    - assert (Hlt : Zpos mz < Q * 2 ^ k).
      { destruct (Z.eq_dec (Zpos mz) (Q * 2 ^ k)) as [Heq|]; [|lia].
        exfalso. apply Hmod. rewrite Heq. apply Z.mod_mul. lia. }
      assert (Zpos mz / 2 ^ k < Q).
      { apply Z.div_lt_upper_bound; [exact Hpk|]. lia. }
      lia. }
  destruct Hres as [(_ & ->) | (m' & e' & Hval & Hee & Hcan & ->)];
    [split; reflexivity|].
  assert (Hvle : Zpos m' * 2 ^ (e' - emin prec emax)
                 <= Zpos mb * 2 ^ (eb - emin prec emax)).
  { replace (e' - emin prec emax) with ((e' - e1) + (e1 - emin prec emax)) by lia.
    rewrite Z.pow_add_r, Z.mul_assoc, Hval by lia.
    replace (eb - emin prec emax) with ((eb - e1) + (e1 - emin prec emax)) by lia.
    rewrite Z.pow_add_r, Z.mul_assoc by lia. fold Q.
    apply Z.mul_le_mono_nonneg_r; [apply Z.pow_nonneg; lia|exact HQ]. }
  destruct (SFleb_canonical prec emax m' mb e' eb Hprec Hcan Hcb Hvle) as [Hee' Hleb].
  assert (Hb : (e' <=? emax - prec) = true) by (apply Z.leb_le; lia).
  rewrite Hb. split; [reflexivity|exact Hleb].
Qed.

(** *** The remainder of a negative number

    [fmod] is exact and negative; numpy adds the divisor, and this sum is
    rounded: it is not below zero and not above the divisor, which it can
    reach. *)

Lemma remainder_neg (dt : dtype) (ma mb : positive) (ea eb : Z) :
  bounded (prec dt) (emax dt) ma ea = true ->
  bounded (prec dt) (emax dt) mb eb = true ->
  SFleb zero (remainder dt (S754_finite true ma ea) (S754_finite false mb eb)) = true
  /\ SFleb (remainder dt (S754_finite true ma ea) (S754_finite false mb eb))
           (S754_finite false mb eb) = true.
Proof.
  intros Ha Hb. destruct (format_bounds dt) as [Hprec Hmax].
  unfold bounded, canonical_mantissa in Ha, Hb.
  apply andb_true_iff in Ha as [Hca Hea], Hb as [Hcb Heb].
  apply Z.eqb_eq in Hca, Hcb. apply Z.leb_le in Hea, Heb.
  destruct (canonical_bounds _ _ _ _ Hca) as [Hma Hda].
  destruct (canonical_bounds _ _ _ _ Hcb) as [Hmb Hdb].
  unfold remainder, fmod.
  set (ez := Z.min ea eb).
  destruct (shl_align_value ma ea ez ltac:(lia)) as [Hza Hza'].
  destruct (shl_align_value mb eb ez ltac:(lia)) as [Hzb Hzb'].
  set (za := fst (shl_align ma ea ez)) in *.
  set (zb := fst (shl_align mb eb ez)) in *.
  rewrite Z.rem_mod_nonneg by lia.
  pose proof (Z.mod_pos_bound (Zpos za) (Zpos zb) ltac:(lia)) as Hr.
  pose proof (Z.mod_le (Zpos za) (Zpos zb) ltac:(lia) ltac:(lia)) as Hr'.
  destruct (Zpos za mod Zpos zb) as [|pr|pr] eqn:Hmod; [| |lia].
  - cbn. split; reflexivity.
  - change (binary_normalize (prec dt) (emax dt) (cond_Zopp true (Zpos pr)) ez true)
      with (binary_round (prec dt) (emax dt) true pr ez).
    assert (Hdig : Zpos (digits2_pos pr) <= prec dt).
    { destruct (Z.le_gt_cases ea eb).
      - transitivity (Zpos (digits2_pos za)); [now apply digits2_pos_le|].
        rewrite Hza'. lia.
      - transitivity (Zpos (digits2_pos zb)); [apply digits2_pos_le; lia|].
        rewrite Hzb'. lia. }
    assert (Hof : Zpos (digits2_pos pr) + ez <= emax dt).
    { assert (Zpos (digits2_pos pr) <= Zpos (digits2_pos zb))
        by (apply digits2_pos_le; lia). lia. }
    destruct (binary_round_exact (prec dt) (emax dt) true pr ez Hmax Hdig
                ltac:(lia) Hof) as (m' & Hround & Hval & Hcan).
    rewrite Hround. cbn [is_nonzero is_negative SFeqb SFltb SFcompare zero negb
                          Bool.eqb andb].
    set (e0 := fexp (prec dt) (emax dt) (Zpos (digits2_pos pr) + ez)) in *.
    assert (He0 : emin (prec dt) (emax dt) <= e0 <= ez)
      by (subst e0; unfold fexp, emin in *; lia).
    unfold add, SFadd. rewrite (Z.min_l e0 eb) by lia.
    destruct (shl_align_value m' e0 e0 ltac:(lia)) as [Hm' _].
    destruct (shl_align_value mb eb e0 ltac:(lia)) as [Hzb0 _].
    rewrite Z.sub_diag, Z.pow_0_r, Z.mul_1_r in Hm'.
    set (x' := fst (shl_align m' e0 e0)) in *.
    set (b' := fst (shl_align mb eb e0)) in *.
    cbn [cond_Zopp].
    assert (Hlt : Zpos x' < Zpos b').
    { rewrite Hm', Hzb0, Hval.
      replace (eb - e0) with ((eb - ez) + (ez - e0)) by lia.
      rewrite Z.pow_add_r, Z.mul_assoc, <- Hzb by lia.
      apply Z.mul_lt_mono_pos_r; [apply Z.pow_pos_nonneg; lia|lia]. }
    destruct (- Zpos x' + Zpos b') as [|pN|pN] eqn:HN; [lia| |lia].
    cbn [binary_normalize].
    apply binary_round_le; try assumption; lia.
Qed.

(** *** The operations keep to the format *)

Lemma astype_valid (dt : dtype) (a : num) : in_format dt (astype dt a) = true.
Proof.
  destruct (format_bounds dt) as [Hprec Hmax].
  destruct a; try reflexivity. now apply binary_round_valid.
Qed.

Lemma digits2_pos_mul (p q : positive) :
  Zpos (digits2_pos p) + Zpos (digits2_pos q) - 1 <= Zpos (digits2_pos (p * q)).
Proof.
  pose proof (digits2_pos_bounds p) as [Hp _].
  pose proof (digits2_pos_bounds q) as [Hq _].
  pose proof (digits2_pos_bounds (p * q)) as [_ Hpq].
  rewrite Pos2Z.inj_mul in Hpq.
  assert (H : 2 ^ (Zpos (digits2_pos p) - 1 + (Zpos (digits2_pos q) - 1))
              < 2 ^ Zpos (digits2_pos (p * q))).
  { rewrite Z.pow_add_r by lia. eapply Z.le_lt_trans; [|exact Hpq].
    apply Z.mul_le_mono_nonneg; try lia; apply Z.pow_nonneg; lia. }
  apply Z.pow_lt_mono_r_iff in H; lia.
Qed.

Lemma multiply_valid (dt : dtype) (a b : num) :
  in_format dt a = true -> in_format dt b = true -> in_format dt (multiply dt a b) = true.
Proof.
  destruct (format_bounds dt) as [Hprec Hmax].
  unfold in_format, multiply. intros Ha Hb.
  destruct a as [sa|sa| |sa ma ea], b as [sb|sb| |sb mb eb]; try reflexivity.
  cbn [SFmul valid_binary] in *. unfold bounded, canonical_mantissa in Ha, Hb.
  apply andb_true_iff in Ha as [Hca _], Hb as [Hcb _].
  apply Z.eqb_eq in Hca, Hcb.
  apply binary_round_aux_valid; [exact Hprec|exact Hmax|].
  pose proof (digits2_pos_mul ma mb) as Hd.
  unfold fexp, emin in *. lia.
Qed.

Lemma add_valid (dt : dtype) (a b : num) :
  in_format dt a = true -> in_format dt b = true -> in_format dt (add dt a b) = true.
Proof.
  destruct (format_bounds dt) as [Hprec Hmax].
  unfold in_format, add. intros Ha Hb.
  destruct a as [sa|sa| |sa ma ea], b as [sb|sb| |sb mb eb];
    try reflexivity; try assumption;
    try (destruct sa, sb; reflexivity).
  cbn [SFadd]. now apply binary_normalize_valid.
Qed.

(** A valid finite positive number, taken apart. *)
Lemma positive_finite (dt : dtype) (b : num) :
  in_format dt b = true -> is_finite b = true -> SFltb zero b = true ->
  exists mb eb, b = S754_finite false mb eb /\ bounded (prec dt) (emax dt) mb eb = true.
Proof.
  intros Hv Hf Hp. destruct b as [s|s| |[] mb eb]; try discriminate.
  exists mb, eb. split; [reflexivity|exact Hv].
Qed.

(** The remainder of a finite number by a positive finite one lies between
    zero and the divisor, both included; it is below the divisor when the
    dividend is not negative. *)
Lemma remainder_range (dt : dtype) (a b : num) :
  in_format dt a = true -> in_format dt b = true ->
  is_finite a = true -> is_finite b = true -> SFltb zero b = true ->
  SFleb zero (remainder dt a b) = true
  /\ SFleb (remainder dt a b) b = true
  /\ (SFleb zero a = true -> SFltb (remainder dt a b) b = true).
Proof.
  intros Ha Hb Hfa Hfb Hpos.
  destruct (positive_finite dt b Hb Hfb Hpos) as (mb & eb & -> & Hbb).
  destruct a as [s|s| |[] ma ea]; try discriminate.
  - rewrite remainder_zero. repeat split; destruct s; reflexivity.
  - destruct (remainder_neg dt ma mb ea eb Ha Hbb) as [H0 H1].
    split; [exact H0|]. split; [exact H1|]. discriminate.
  - destruct (remainder_nonneg dt ma mb ea eb Ha Hbb) as (_ & H0 & H1).
    split; [exact H0|]. split; [now apply SFltb_SFleb|]. intros _. exact H1.
Qed.

(** Multiplying by one changes nothing. *)
Lemma multiply_one (dt : dtype) (a : num) :
  in_format dt a = true ->
  multiply dt a (astype dt (of_Z float64 1)) = a.
Proof.
  intros Ha. destruct (format_bounds dt) as [Hprec Hmax].
  assert (Hone : exists h, astype dt (of_Z float64 1) = S754_finite false h (1 - prec dt)
                           /\ Zpos h = 2 ^ (prec dt - 1)).
  { destruct dt; eexists; split; reflexivity. }
  destruct Hone as (h & -> & Hh). unfold multiply, in_format in *.
  destruct a as [s|s| |s ma ea]; cbn [SFmul]; rewrite ?xorb_false_r; try reflexivity.
  cbn [valid_binary] in Ha. unfold bounded, canonical_mantissa in Ha.
  apply andb_true_iff in Ha as [Hca Hea]. apply Z.eqb_eq in Hca. apply Z.leb_le in Hea.
  destruct (canonical_bounds _ _ _ _ Hca) as [Hmin Hda].
  pose proof (digits2_pos_bounds ma) as Hma.
  assert (Hp1 : 0 < 2 ^ (prec dt - 1)) by (apply Z.pow_pos_nonneg; lia).
  assert (Hdig : Zpos (digits2_pos (ma * h)) = Zpos (digits2_pos ma) + (prec dt - 1)).
  { apply digits2_pos_unique. rewrite Pos2Z.inj_mul, Hh.
    replace (Zpos (digits2_pos ma) + (prec dt - 1) - 1)
      with ((Zpos (digits2_pos ma) - 1) + (prec dt - 1)) by lia.
    rewrite !Z.pow_add_r by lia. split.
    - apply Z.mul_le_mono_nonneg_r; lia.
    - apply Z.mul_lt_mono_pos_r; lia. }
  assert (He1 : fexp (prec dt) (emax dt)
                  (Zpos (digits2_pos (ma * h)) + (ea + (1 - prec dt))) = ea).
  { rewrite Hdig. rewrite <- Hca at 2. f_equal. lia. }
  destruct (binary_round_aux_cases (prec dt) (emax dt) s (ma * h) (ea + (1 - prec dt))
              Hprec Hmax ltac:(rewrite He1; lia))
    as (m2 & _ & Hexact & Hres).
  rewrite He1 in Hexact, Hres.
  replace (ea - (ea + (1 - prec dt))) with (prec dt - 1) in Hexact by lia.
  rewrite Pos2Z.inj_mul, Hh in Hexact.
  rewrite Z.mod_mul, Z.div_mul in Hexact by lia.
  specialize (Hexact eq_refl). subst m2.
  destruct Hres as [(Hz & _) | (m' & e' & Hval & Hee & Hcan & ->)]; [lia|].
  assert (Hu : m' = ma /\ e' = ea).
  { apply (canonical_unique (prec dt) (emax dt)); try assumption.
    replace (e' - emin (prec dt) (emax dt))
      with ((e' - ea) + (ea - emin (prec dt) (emax dt))) by lia.
    rewrite Z.pow_add_r, Z.mul_assoc, Hval by lia. reflexivity. }
  destruct Hu as [-> ->].
  apply Z.leb_le in Hea. now rewrite Hea.
Qed.

(** Only a number with a negative exponent is rounded to zero. *)
Lemma astype_zero_exponent (dt : dtype) (s s' : bool) (m : positive) (e : Z) :
  astype dt (S754_finite s m e) = S754_zero s' -> e < 0.
Proof.
  destruct (format_bounds dt) as [Hprec Hmax].
  unfold astype, binary_round.
  destruct (shl_align_fexp (prec dt) (emax dt) m e) as (Hdig & Hez & _).
  destruct (shl_align m e _) as [mz ez]. cbn [fst snd] in *.
  assert (Hle : ez <= fexp (prec dt) (emax dt) (Zpos (digits2_pos mz) + ez)).
  { rewrite Hdig. lia. }
  destruct (binary_round_aux_cases (prec dt) (emax dt) s mz ez Hprec Hmax Hle)
    as (m2 & Hm2 & _ & [(Hz & _) | (m' & e' & _ & _ & _ & ->)]).
  - intros _.
    pose proof (digits2_pos_bounds mz) as [Hlo _].
    assert (Hm1 : Zpos mz / 2 ^ (fexp (prec dt) (emax dt) (Zpos (digits2_pos mz) + ez) - ez)
                  = 0).
    { assert (0 <= Zpos mz / 2 ^ (fexp (prec dt) (emax dt) (Zpos (digits2_pos mz) + ez) - ez)).
      { apply Z.div_pos; [lia|]. apply Z.pow_pos_nonneg; lia. }
      lia. }
    assert (Hk : 0 < 2 ^ (fexp (prec dt) (emax dt) (Zpos (digits2_pos mz) + ez) - ez))
      by (apply Z.pow_pos_nonneg; lia).
    destruct (Z.lt_ge_cases (Zpos mz)
                (2 ^ (fexp (prec dt) (emax dt) (Zpos (digits2_pos mz) + ez) - ez)))
      as [Hlt|Hge].
    + assert (Hpow : 2 ^ (Zpos (digits2_pos mz) - 1)
                     < 2 ^ (fexp (prec dt) (emax dt) (Zpos (digits2_pos mz) + ez) - ez))
        by lia.
      apply Z.pow_lt_mono_r_iff in Hpow; [|lia|lia].
      revert Hpow. rewrite Hdig. unfold fexp, emin.
      pose proof (Pos2Z.is_pos (digits2_pos m)). destruct dt; cbn [prec emax]; lia.
    + pose proof (Z.div_str_pos _ _ (conj Hk Hge)). lia.
  - destruct (e' <=? emax dt - prec dt); discriminate.
Qed.

(** A box length that is zero in single precision fits single precision. *)
Lemma zero_fits_float32 (b : num) (s : bool) :
  astype float32 b = S754_zero s -> fits_float32 b = true.
Proof.
  intros Hb. destruct b as [sb|sb| |sb m e]; try reflexivity.
  apply astype_zero_exponent in Hb.
  assert (He : (e ?= 75) = Lt) by (apply Z.compare_lt_iff; lia).
  assert (He' : (75 ?= e) = Gt) by (apply Z.compare_gt_iff; lia).
  unfold fits_float32, SFltb.
  change float32_limit with (S754_finite false 8999725064576941 75).
  cbn [SFopp SFcompare negb].
  destruct sb; rewrite ?He, ?He'; reflexivity.
Qed.

Lemma multiply_nan (dt : dtype) (b : num) : multiply dt S754_nan b = S754_nan.
Proof. reflexivity. Qed.

Lemma add_nan (dt : dtype) (b : num) : add dt S754_nan b = S754_nan.
Proof. reflexivity. Qed.

End Rounding.

(** ** The periodic wrap, for every finite particle *)

Lemma raw_position_in_format (data : DataFrame) (k j : nat) (p0 : vec3) :
  raw_position data !! k = Some p0 -> in_format float32 (getitem p0 j) = true.
Proof.
  unfold raw_position, values_f4. intros H.
  apply list_lookup_fmap_Some in H as (r & -> & _).
  destruct j as [|[|j]]; apply astype_valid.
Qed.

Lemma raw_velocity_in_format (data : DataFrame) (k j : nat) (v0 : vec3) :
  raw_velocity data !! k = Some v0 -> in_format float32 (getitem v0 j) = true.
Proof.
  unfold raw_velocity, values_f4. intros H.
  apply list_lookup_fmap_Some in H as (r & -> & _).
  destruct j as [|[|j]]; apply astype_valid.
Qed.

(** The product of [vel *= self.velf] keeps to single precision. *)
Lemma inplace_multiply_valid (a q : num) :
  in_format float32 a = true -> in_format float32 (inplace multiply a q) = true.
Proof.
  intros Ha. unfold inplace. destruct (fits_float32 q).
  - apply multiply_valid; [exact Ha|apply astype_valid].
  - apply astype_valid.
Qed.

(** X10: in redshift space and unscaled, with a captured box length that
    fits single precision (it lies below 3.4e38, so that [%=] runs in single
    precision) and is finite and positive there, every particle whose sum of
    position and scaled velocity is finite comes out along the [rsd] axis
    between zero and the box length, both ends included; when the sum is not
    negative it comes out below the box length. *)
Theorem redshift_wrap_range
    (pd : string -> exn + DataFrame) (w : world) (data : DataFrame) (a : axis)
    (comm : Comm) (bunchsize : nat) :
  rsd (self w) = Some a ->
  scaled (self w) = false ->
  pd (path (self w)) = inr data ->
  fits_float32 (getitem (heap w !!! _BoxSize0 (self w)) (index a)) = true ->
  let L := astype float32 (getitem (heap w !!! _BoxSize0 (self w)) (index a)) in
  is_finite L = true ->
  SFltb zero L = true ->
  exists pos,
    readall (Some pd) ["Position"] comm bunchsize w
      = (inr [[Array2 float32 pos]], w)
    /\ forall (k : nat) (p p0 v0 : vec3),
         pos !! k = Some p ->
         raw_position data !! k = Some p0 ->
         raw_velocity data !! k = Some v0 ->
         let sum := add float32 (getitem p0 (index a))
                        (inplace multiply (getitem v0 (index a)) (velf (self w))) in
         is_finite sum = true ->
         SFleb zero (getitem p (index a)) = true
         /\ SFleb (getitem p (index a)) L = true
         /\ (SFleb zero sum = true -> SFltb (getitem p (index a)) L = true).
Proof.
  intros Hr Hs Hread Hfit L HLf HLp. rewrite (readall_columns _ _ _ _ _ _ Hread).
  eexists. split; [reflexivity|].
  intros k p p0 v0 Hp Hp0 Hv0 sum Hsum.
  apply lookup_zip_with_Some in Hp as (p0' & v0' & -> & Hp0' & Hv0').
  rewrite Hp0' in Hp0. injection Hp0 as ->.
  rewrite Hv0' in Hv0. injection Hv0 as ->.
  rewrite (position_along_rsd _ _ _ _ _ Hr). cbn zeta.
  rewrite Hs, (inplace_fits _ _ _ Hfit).
  apply remainder_range; try assumption.
  - apply add_valid; [now apply raw_position_in_format with data k|].
    apply inplace_multiply_valid. now apply raw_velocity_in_format with data k.
  - apply astype_valid.
Qed.

Lemma redshift_wrap_range_witness :
  exists pos,
    readall (Some scenario_read_csv) ["Position"] rank0 0 edge_world
      = (inr [[Array2 float32 pos]], edge_world)
    /\ forall (k : nat) (p p0 v0 : vec3),
         pos !! k = Some p ->
         raw_position scenario_file !! k = Some p0 ->
         raw_velocity scenario_file !! k = Some v0 ->
         let sum := add float32 (getitem p0 (index x))
                        (inplace multiply (getitem v0 (index x))
                                 (velf (self edge_world))) in
         is_finite sum = true ->
         SFleb zero (getitem p (index x)) = true
         /\ SFleb (getitem p (index x))
                  (astype float32
                     (getitem (heap edge_world !!! _BoxSize0 (self edge_world))
                              (index x))) = true
         /\ (SFleb zero sum = true ->
             SFltb (getitem p (index x))
                   (astype float32
                      (getitem (heap edge_world !!! _BoxSize0 (self edge_world))
                               (index x))) = true).
Proof.
  apply (redshift_wrap_range scenario_read_csv edge_world scenario_file x);
    reflexivity.
Defined.

(** X11: with [velf = 1], the default of the command line, the Velocity
    handed out is bit for bit the single precision velocity read from the
    file, in every configuration. *)
Theorem unit_velf_keeps_velocity
    (pd : string -> exn + DataFrame) (w : world) (data : DataFrame)
    (comm : Comm) (bunchsize : nat) :
  velf (self w) = of_Z float64 1 ->
  pd (path (self w)) = inr data ->
  readall (Some pd) ["Velocity"] comm bunchsize w
    = (inr [[Array2 float32 (raw_velocity data)]], w).
Proof.
  intros Hv Hread. rewrite (readall_columns _ _ _ _ _ _ Hread).
  cbn [first_unsupported List.find map field String.eqb Ascii.eqb Bool.eqb negb].
  unfold Velocity_of, Spec.scale_velocity. rewrite Hv.
  do 5 f_equal. unfold raw_velocity, values_f4. rewrite map_map.
  apply List.map_ext. intros r. unfold vmap. cbn [c0 c1 c2].
  rewrite !(inplace_fits multiply _ (of_Z float64 1)) by reflexivity.
  now rewrite !multiply_one by apply astype_valid.
Qed.

Lemma unit_velf_keeps_velocity_witness :
  readall (Some scenario_read_csv) ["Velocity"] rank0 0 edge_world
    = (inr [[Array2 float32 (raw_velocity scenario_file)]], edge_world).
Proof.
  apply (unit_velf_keeps_velocity scenario_read_csv edge_world scenario_file);
    reflexivity.
Defined.

(** ** Input that is not checked *)

Lemma remainder_by_zero (dt : dtype) (a : num) (s : bool) :
  remainder dt a (S754_zero s) = S754_nan.
Proof. destruct a; reflexivity. Qed.

Lemma remainder_nan (dt : dtype) (b : num) :
  remainder dt S754_nan b = S754_nan.
Proof. destruct b as [[]|[]| |[] m e]; reflexivity. Qed.

Lemma astype_nan (dt : dtype) : astype dt S754_nan = S754_nan.
Proof. reflexivity. Qed.

(** A NaN in the array stays a NaN under either loop. *)
Lemma inplace_multiply_nan (q : num) : inplace multiply S754_nan q = S754_nan.
Proof. unfold inplace. now destruct (fits_float32 q). Qed.

Lemma inplace_remainder_nan (b : num) : inplace remainder S754_nan b = S754_nan.
Proof.
  unfold inplace. destruct (fits_float32 b).
  - apply remainder_nan.
  - now rewrite astype_nan, remainder_nan.
Qed.

(** X12: a box length that is zero in single precision is not refused: in
    redshift space every particle then gets a NaN along the [rsd] axis,
    scaled or not, and the read succeeds. *)
Theorem zero_box_length_gives_nan
    (pd : string -> exn + DataFrame) (w : world) (data : DataFrame) (a : axis)
    (s : bool) (comm : Comm) (bunchsize : nat) :
  rsd (self w) = Some a ->
  pd (path (self w)) = inr data ->
  astype float32 (getitem (heap w !!! _BoxSize0 (self w)) (index a)) = S754_zero s ->
  exists pos,
    readall (Some pd) ["Position"] comm bunchsize w
      = (inr [[Array2 float32 pos]], w)
    /\ length pos = length data
    /\ forall (k : nat) (p : vec3),
         pos !! k = Some p -> getitem p (index a) = S754_nan.
Proof.
  intros Hr Hread HL. rewrite (readall_columns _ _ _ _ _ _ Hread).
  eexists. split; [reflexivity|]. split.
  { unfold raw_position, raw_velocity, values_f4.
    rewrite length_zip_with, !length_map. lia. }
  intros k p Hp.
  apply lookup_zip_with_Some in Hp as (p0 & v0 & -> & _ & _).
  rewrite (position_along_rsd _ _ _ _ _ Hr). cbn zeta.
  rewrite (inplace_fits _ _ _ (zero_fits_float32 _ _ HL)), HL, remainder_by_zero.
  now destruct (scaled (self w)).
Qed.

Lemma zero_box_length_gives_nan_witness :
  exists pos,
    readall (Some scenario_read_csv) ["Position"] rank0 0 flat_world
      = (inr [[Array2 float32 pos]], flat_world)
    /\ length pos = length scenario_file
    /\ forall (k : nat) (p : vec3),
         pos !! k = Some p -> getitem p (index x) = S754_nan.
Proof.
  apply (zero_box_length_gives_nan scenario_read_csv flat_world scenario_file x false);
    reflexivity.
Defined.

Lemma position_nan (s : QPMMockDataSource) (L0 p v : vec3) (j : nat) :
  j < 3 -> getitem p j = S754_nan ->
  getitem (Spec.position s L0 p v) j = S754_nan.
Proof.
  intros Hj Hnan. destruct (rsd s) as [a|] eqn:Hr.
  - destruct (Nat.eq_dec j (index a)) as [->|Hne].
    + rewrite (position_along_rsd _ _ _ _ _ Hr). cbn zeta.
      rewrite Hnan, add_nan, inplace_remainder_nan. now destruct (scaled s).
    + rewrite (position_off_axis _ _ _ _ _ _ Hr Hj Hne), Hnan.
      now destruct (scaled s).
  - unfold Spec.position. rewrite Hr. cbn [Spec.redshift].
    destruct j as [|[|[|j]]]; [| | |lia]; cbn [getitem] in Hnan;
      unfold Spec.rescale; destruct (scaled s); cbn [getitem c0 c1 c2];
      now rewrite Hnan.
Qed.

(** X13: a coordinate that is not a number is not refused either: in every
    configuration a NaN read for a position component comes out as a NaN in
    that component. *)
Theorem nan_position_passes_through
    (pd : string -> exn + DataFrame) (w : world) (data : DataFrame)
    (comm : Comm) (bunchsize : nat) :
  pd (path (self w)) = inr data ->
  exists pos,
    readall (Some pd) ["Position"] comm bunchsize w
      = (inr [[Array2 float32 pos]], w)
    /\ forall (k j : nat) (p p0 : vec3),
         pos !! k = Some p -> raw_position data !! k = Some p0 ->
         j < 3 -> getitem p0 j = S754_nan -> getitem p j = S754_nan.
Proof.
  intros Hread. rewrite (readall_columns _ _ _ _ _ _ Hread).
  eexists. split; [reflexivity|].
  intros k j p p0 Hp Hp0 Hj Hnan.
  apply lookup_zip_with_Some in Hp as (p0' & v0 & -> & Hp0' & _).
  rewrite Hp0' in Hp0. injection Hp0 as ->.
  now apply position_nan.
Qed.

Lemma nan_position_passes_through_witness :
  exists pos,
    readall (Some scenario_read_csv) ["Position"] rank0 0 scenario_world
      = (inr [[Array2 float32 pos]], scenario_world)
    /\ forall (k j : nat) (p p0 : vec3),
         pos !! k = Some p -> raw_position scenario_file !! k = Some p0 ->
         j < 3 -> getitem p0 j = S754_nan -> getitem p j = S754_nan.
Proof.
  apply (nan_position_passes_through scenario_read_csv scenario_world scenario_file).
  reflexivity.
Defined.

(** ** Set-up and read together *)

(** X14: after a set-up with a box size [b] and an [rsd] axis, a read wraps
    along that axis modulo the length of [b] as it was passed, although
    set-up has scaled the working box size in place in the meantime, and
    multiplies by [qpar] only after the wrap.  The product with [velf] and
    the remainder are those of the in-place operators [*=] and [%=] on the
    single precision array: each runs in single precision when its scalar
    fits single precision and in double precision otherwise, and a remainder
    that is zero has the sign of the box length. *)
Theorem wrap_uses_the_box_as_passed
    (pd : string -> exn + DataFrame) (args : Namespace) (w0 : world) (b : vec3)
    (data : DataFrame) (a : axis) (comm : Comm) (bunchsize : nat) :
  heap w0 !! args_BoxSize args = Some b ->
  args_rsd args = Some a ->
  pd (args_path args) = inr data ->
  exists pos,
    readall (Some pd) ["Position"] comm bunchsize (snd (initialize args w0))
      = (inr [[Array2 float32 pos]], snd (initialize args w0))
    /\ forall (k : nat) (p p0 v0 : vec3),
         pos !! k = Some p ->
         raw_position data !! k = Some p0 ->
         raw_velocity data !! k = Some v0 ->
         getitem p (index a) =
           let wrapped :=
             inplace remainder
               (add float32 (getitem p0 (index a))
                    (inplace multiply (getitem v0 (index a)) (args_velf args)))
               (getitem b (index a)) in
           if args_scaled args
           then multiply float32 wrapped (astype float32 qpar)
           else wrapped.
Proof.
  intros Hb Hr Hread. pose proof (lookup_lt_Some _ _ _ Hb) as Hlt.
  rewrite (initialize_eq _ _ _ Hb). cbn [snd].
  rewrite (readall_columns pd _ data) by exact Hread.
  cbn [self heap _BoxSize0].
  assert (HL : <[args_BoxSize args :=
                   Spec.working_size (args_scaled args) (args_rsd args) b]>
                 (heap w0 ++ [b])%list !!! length (heap w0) = b).
  { apply list_lookup_total_correct. rewrite list_lookup_insert_ne by lia.
    now apply list_lookup_middle. }
  rewrite HL. eexists. split; [reflexivity|].
  intros k p p0 v0 Hp Hp0 Hv0.
  apply lookup_zip_with_Some in Hp as (p0' & v0' & -> & Hp0' & Hv0').
  rewrite Hp0' in Hp0. injection Hp0 as ->.
  rewrite Hv0' in Hv0. injection Hv0 as ->.
  rewrite (position_along_rsd _ _ _ _ a); [reflexivity|exact Hr].
Qed.

Lemma wrap_uses_the_box_as_passed_witness :
  exists pos,
    readall (Some scenario_read_csv) ["Position"] rank0 0
            (snd (initialize scenario_args scenario_start))
      = (inr [[Array2 float32 pos]], snd (initialize scenario_args scenario_start))
    /\ forall (k : nat) (p p0 v0 : vec3),
         pos !! k = Some p ->
         raw_position scenario_file !! k = Some p0 ->
         raw_velocity scenario_file !! k = Some v0 ->
         getitem p (index x) =
           let wrapped :=
             inplace remainder
               (add float32 (getitem p0 (index x))
                    (inplace multiply (getitem v0 (index x))
                             (args_velf scenario_args)))
               (getitem (V3 (f8 10) (f8 10) (f8 10)) (index x)) in
           if args_scaled scenario_args
           then multiply float32 wrapped (astype float32 qpar)
           else wrapped.
Proof.
  apply (wrap_uses_the_box_as_passed scenario_read_csv scenario_args scenario_start
           (V3 (f8 10) (f8 10) (f8 10)) scenario_file x);
    reflexivity.
Defined.
